(** * ABSPATH-guard position check: a shallow embedding

    The repository holds two Python scripts.  [check_abspath_position.py]
    walks the directory [src], keeps the files named [*.php] other than
    [index.php], reads each one and prints its path when the first match of
    the guard pattern (the text defined, an opening parenthesis, optional
    white space, a quote, ABSPATH, a quote, optional white space, a closing
    parenthesis) starts
    strictly before the first match of [^\s*use\s+[\w\\]+] (MULTILINE).
    [debug_check.py] runs the same two searches on a literal text.

    Python strings are sequences of Unicode code points; they are modelled as
    lists of code points.  The two regular expressions are kept as data and
    run by a backtracking matcher with the priorities of Python's [re]
    (greedy repetition first), so that the offsets the scripts compare are
    computed and not postulated. *)

From Stdlib Require Import List NArith Arith Bool Lia String Ascii Permutation.
Import ListNotations.

(** ** Text *)

Definition char := N.
Definition str := list char.

Definition chr (a : ascii) : char := N_of_ascii a.

(** [lit "abc"] is the Python literal ['abc']. *)
Definition lit (s : string) : str := map chr (list_ascii_of_string s).

Definition newline : char := 10%N.
Definition squote : char := 39%N.
Definition dquote : char := 34%N.
Definition backslash : char := 92%N.
Definition underscore : char := 95%N.

Definition is_nl (c : char) : bool := N.eqb c newline.

Definition between (lo hi c : N) : bool := N.leb lo c && N.leb c hi.

(** [\s] on a [str] pattern: the code points for which [str.isspace] holds. *)
Definition is_space (c : char) : bool :=
  between 9 13 c || between 28 32 c || N.eqb c 133 || N.eqb c 160
  || N.eqb c 5760 || between 8192 8202 c || N.eqb c 8232 || N.eqb c 8233
  || N.eqb c 8239 || N.eqb c 8287 || N.eqb c 12288.

Definition ascii_alnum (c : char) : bool :=
  between 48 57 c || between 65 90 c || between 97 122 c.

(** The class of the two quote characters, single and double. *)
Definition is_quote (c : char) : bool := N.eqb c squote || N.eqb c dquote.

Fixpoint str_eqb (a b : str) : bool :=
  match a, b with
  | [], [] => true
  | x :: a', y :: b' => N.eqb x y && str_eqb a' b'
  | _, _ => false
  end.

Fixpoint startswith (s p : str) : bool :=
  match p, s with
  | [], _ => true
  | y :: p', x :: s' => N.eqb x y && startswith s' p'
  | _ :: _, [] => false
  end.

(** [s.endswith(p)] *)
Definition endswith (s p : str) : bool := startswith (rev s) (rev p).

(** ** The fragment of [re] the scripts use *)

Module Re.

(** One pattern item.  Repetition is only ever applied to a character class
    in the two patterns, so the items are flat. *)
Inductive atom : Type :=
| Bol                          (* ^ under re.MULTILINE *)
| Chr (c : char)               (* a literal character *)
| Cls (p : char -> bool)       (* a character class *)
| Star (p : char -> bool)      (* class*, greedy *)
| Plus (p : char -> bool).     (* class+, greedy *)

Definition regex := list atom.

Definition lits (s : string) : regex := map Chr (lit s).

(** Greedy repetition with backtracking: consume while the class holds, and
    on the way back hand the rest to the continuation [k] at every split,
    longest first.  [bol] tells whether the current position is the start of
    a line. *)
Fixpoint star (p : char -> bool) (k : bool -> str -> option nat)
         (bol : bool) (s : str) : option nat :=
  match s with
  | x :: s' =>
      if p x then
        match star p k (is_nl x) s' with
        | Some n => Some (S n)
        | None => k bol s
        end
      else k bol s
  | [] => k bol s
  end.

(** [match_here r bol s]: the number of characters of the match of [r]
    anchored at the head of [s], if there is one. *)
Fixpoint match_here (r : regex) (bol : bool) (s : str) : option nat :=
  match r with
  | [] => Some 0
  | Bol :: r' => if bol then match_here r' bol s else None
  | Chr c :: r' =>
      match s with
      | x :: s' =>
          if N.eqb x c then option_map S (match_here r' (is_nl x) s') else None
      | [] => None
      end
  | Cls p :: r' =>
      match s with
      | x :: s' =>
          if p x then option_map S (match_here r' (is_nl x) s') else None
      | [] => None
      end
  | Star p :: r' => star p (match_here r') bol s
  | Plus p :: r' =>
      match s with
      | x :: s' =>
          if p x then option_map S (star p (match_here r') (is_nl x) s')
          else None
      | [] => None
      end
  end.

(** A match object: [m.start()] and [m.end()]. *)
Record Match : Type := mkMatch { start : nat; stop : nat }.

(** [re.search]: the match at the leftmost position that has one.  [pos] is
    the offset of the head of [s] in the whole text. *)
Fixpoint search_at (r : regex) (bol : bool) (s : str) (pos : nat)
  : option Match :=
  match match_here r bol s with
  | Some n => Some (mkMatch pos (pos + n))
  | None =>
      match s with
      | [] => None
      | x :: s' => search_at r (is_nl x) s' (S pos)
      end
  end.

Definition search (r : regex) (s : str) : option Match :=
  search_at r true s 0.

(** [re.finditer]: the successive non-overlapping matches, left to right.
    After a match of [n] characters the scan resumes at its end; [skip]
    counts the characters of the last match still to be passed over.  Both
    patterns of the scripts consume at least one character. *)
Fixpoint finditer_at (r : regex) (bol : bool) (s : str) (pos skip : nat)
  : list Match :=
  match skip with
  | S k =>
      match s with
      | [] => []
      | x :: s' => finditer_at r (is_nl x) s' (S pos) k
      end
  | O =>
      match match_here r bol s with
      | Some n =>
          mkMatch pos (pos + n) ::
          match s with
          | [] => []
          | x :: s' => finditer_at r (is_nl x) s' (S pos) (pred n)
          end
      | None =>
          match s with
          | [] => []
          | x :: s' => finditer_at r (is_nl x) s' (S pos) 0
          end
      end
  end.

Definition finditer (r : regex) (s : str) : list Match :=
  finditer_at r true s 0 0.

End Re.

(** ** The interpreter's Unicode table

    [\w] on a [str] pattern is the underscore and every code point for which
    [str.isalnum] holds.  Below 128 that is the ASCII letters and digits;
    above, it is a table of the interpreter's Unicode database, which the
    scripts do not carry.  It is taken as a parameter. *)
Class UnicodeData : Type := { unicode_alnum : char -> bool }.

(** A table with no alphanumeric code point above 127, to run examples. *)
Definition ascii_only : UnicodeData := {| unicode_alnum := fun _ => false |}.

(** ** The world the scripts run in *)

(** One item of [os.walk]: [(dirpath, dirnames, filenames)]. *)
Definition walk_entry : Type := (str * list str * list str)%type.

(** [fs_read p] is the text that
    [open(p, 'r', encoding='utf-8').read()] returns, or [None] when opening,
    reading or decoding raises an [Exception].  [fs_walk root] is what
    [os.walk(root)] yields.  [stdout] holds the printed lines and [opened]
    the paths handed to [open], both oldest first. *)
Record world : Type := mkWorld {
  fs_read : str -> option str;
  fs_walk : str -> list walk_entry;
  stdout : list str;
  opened : list str
}.

Definition IO (A : Type) : Type := world -> A * world.

Definition ret {A : Type} (a : A) : IO A := fun w => (a, w).

Definition bind {A B : Type} (m : IO A) (f : A -> IO B) : IO B :=
  fun w => let (a, w') := m w in f a w'.

Notation "x <- m ;; k" := (bind m (fun x => k))
  (at level 61, m at next level, right associativity).

Definition open_read (filepath : str) : IO (option str) :=
  fun w =>
    (fs_read w filepath,
     mkWorld (fs_read w) (fs_walk w) (stdout w) (opened w ++ [filepath])).

Definition os_walk (root : str) : IO (list walk_entry) :=
  fun w => (fs_walk w root, w).

Definition print (line : str) : IO unit :=
  fun w =>
    (tt, mkWorld (fs_read w) (fs_walk w) (stdout w ++ [line]) (opened w)).

(** A [for] loop whose body only acts on the world. *)
Fixpoint for_each {A : Type} (l : list A) (body : A -> IO unit) : IO unit :=
  match l with
  | [] => ret tt
  | x :: l' => _ <- body x ;; for_each l' body
  end.

(** [posixpath.join] of two components. *)
Definition path_join (a b : str) : str :=
  if startswith b (lit "/") then b
  else
    match a with
    | [] => a ++ b
    | _ :: _ => if endswith a (lit "/") then a ++ b else a ++ lit "/" ++ b
    end.

(** Truth value of [res] in [if res:], for [res] a path or [None]. *)
Definition truthy (res : option str) : bool :=
  match res with
  | Some (_ :: _) => true
  | _ => false
  end.

(** What [print(res)] writes. *)
Definition py_str (res : option str) : str :=
  match res with
  | Some s => s
  | None => lit "None"
  end.

(** ** check_abspath_position.py *)

Section Checker.

Context {ud : UnicodeData}.

(** [\w] *)
Definition is_word (c : char) : bool :=
  if N.ltb c 128 then ascii_alnum c || N.eqb c underscore
  else unicode_alnum c.

(** The class of [\w] and the backslash. *)
Definition is_word_or_backslash (c : char) : bool :=
  is_word c || N.eqb c backslash.

(** [^\s*use\s+[\w\\]+] *)
Definition use_re : Re.regex :=
  [Re.Bol; Re.Star is_space] ++ Re.lits "use"
  ++ [Re.Plus is_space; Re.Plus is_word_or_backslash].

(** The guard pattern of both scripts: [defined\(], [\s*], a quote,
    [ABSPATH], a quote, [\s*], [\)]. *)
Definition abspath_re : Re.regex :=
  Re.lits "defined(" ++ [Re.Star is_space; Re.Cls is_quote]
  ++ Re.lits "ABSPATH" ++ [Re.Cls is_quote; Re.Star is_space]
  ++ Re.lits ")".

(** Lines 14 to 25 of [check_file], on the text that was read: [None] is
    Python's [None], [Some filepath] the returned path. *)
Definition check_content (filepath content : str) : option str :=
  let use_statements := map Re.start (Re.finditer use_re content) in
  let abspath_check := Re.search abspath_re content in
  match use_statements, abspath_check with
  | first_use_pos :: _, Some m =>
      let abspath_pos := Re.start m in
      if abspath_pos <? first_use_pos then Some filepath else None
  | _, _ => None
  end.

Definition check_file (filepath : str) : IO (option str) :=
  r <- open_read filepath ;;
  match r with
  | None => ret None
  | Some content => ret (check_content filepath content)
  end.

Definition root_dir : str := lit "src".

(** The test of the inner loop on a file name. *)
Definition is_candidate (filename : str) : bool :=
  endswith filename (lit ".php") && negb (str_eqb filename (lit "index.php")).

(** The body of the inner loop. *)
Definition visit (dirpath filename : str) : IO unit :=
  if is_candidate filename then
    let filepath := path_join dirpath filename in
    res <- check_file filepath ;;
    if truthy res then print (py_str res) else ret tt
  else ret tt.

(** The module-level loop.  [os.walk] is a generator, but nothing in the loop
    changes the tree, so its items are taken at once. *)
Definition main : IO unit :=
  entries <- os_walk root_dir ;;
  for_each entries (fun entry =>
    let '(dirpath, dirnames, filenames) := entry in
    for_each filenames (visit dirpath)).

(** The lines a run of the script adds to the output, and the paths it
    opens. *)
Definition printed (w : world) : list str :=
  skipn (List.length (stdout w)) (stdout (snd (main w))).

Definition examined (w : world) : list str :=
  skipn (List.length (opened w)) (opened (snd (main w))).

End Checker.

(** The candidate paths of a tree, in the order of the walk. *)
Definition candidates (w : world) : list str :=
  flat_map
    (fun entry : walk_entry =>
       let '(dirpath, dirnames, filenames) := entry in
       map (path_join dirpath) (filter is_candidate filenames))
    (fs_walk w root_dir).

(** ** debug_check.py *)

(** The literal [content].  It is not a raw string: of its backslash pairs
    only [\a] is an escape of Python, the bell character, and the others
    stand for themselves. *)
Definition bell : char := 7%N.

Fixpoint unlines (ls : list str) : str :=
  match ls with
  | [] => []
  | l :: ls' => l ++ newline :: unlines ls'
  end.

Definition debug_content : str :=
  unlines
    [ lit "<?php";
      [];
      lit "/**";
      lit " * Starmus Admin Handler - Refactored for Security & Performance";
      lit " *";
      lit " * @package Starisian\Sparxstar\Starmus" ++ bell :: lit "dmin";
      lit " *";
      lit " * @version 0.9.2";
      lit " *";
      lit " * @since 0.3.1";
      lit " */";
      lit "namespace Starisian\Sparxstar\Starmus" ++ bell :: lit "dmin;";
      [];
      lit "if (! \defined('ABSPATH')) {";
      lit "    return;";
      lit "}";
      [];
      lit "use Starisian\Sparxstar\Starmus\core\StarmusSettings;";
      lit "use Starisian\Sparxstar\Starmus\data\interfaces\IStarmusAudioDAL;"
    ].

(** The lines the script can print, with the values they show. *)
Inductive debug_line : Type :=
| UseStatementsFound (count : nat)
| FirstUseAt (pos : nat)
| CheckFoundAt (pos : nat)
| MatchText (text : str)
| Detected
| OkAfterOrEqual
| NotDetectedBoth.

(** [m.group(0)] *)
Definition group0 (content : str) (m : Re.Match) : str :=
  firstn (Re.stop m - Re.start m) (skipn (Re.start m) content).

Definition debug_check {ud : UnicodeData} : list debug_line :=
  let content := debug_content in
  let use_statements := map Re.start (Re.finditer use_re content) in
  let abspath_check := Re.search abspath_re content in
  [UseStatementsFound (List.length use_statements)]
  ++ match use_statements with
     | first :: _ => [FirstUseAt first]
     | [] => []
     end
  ++ match abspath_check with
     | Some m => [CheckFoundAt (Re.start m); MatchText (group0 content m)]
     | None => []
     end
  ++ match use_statements, abspath_check with
     | first :: _, Some m =>
         if Re.start m <? first then [Detected] else [OkAfterOrEqual]
     | _, _ => [NotDetectedBoth]
     end.

(** ** The texts of the scenarios *)

Definition scenario_A : str :=
  lit "<?php" ++ newline :: lit "if (!defined('ABSPATH')) { return; }"
  ++ newline :: lit "use Foo\Bar;" ++ [newline].

Definition scenario_B : str :=
  lit "<?php" ++ newline :: lit "use Foo\Bar;" ++ newline
  :: lit "if (!defined('ABSPATH')) { return; }" ++ [newline].

(** A guard written with two different quotes. *)
Definition mismatched_guard : str :=
  lit "defined('ABSPATH" ++ dquote :: lit ")".

(** A text with neither a use statement nor a guard. *)
Definition plain_text : str := lit "<?php echo 1;" ++ [newline].

(** A tree with one directory, to run the script on: its [index.php] holds
    the text of scenario A and [broken.php] cannot be read. *)
Definition demo_read (p : str) : option str :=
  if str_eqb p (lit "src/a.php") then Some scenario_A
  else if str_eqb p (lit "src/b.php") then Some scenario_B
  else if str_eqb p (lit "src/index.php") then Some scenario_A
  else if str_eqb p (lit "src/plain.php") then Some plain_text
  else None.

Definition demo_world : world :=
  {| fs_read := demo_read;
     fs_walk := fun root =>
       if str_eqb root (lit "src")
       then [(lit "src", [],
              [lit "index.php"; lit "a.php"; lit "broken.php"; lit "b.php";
               lit "plain.php"; lit "notes.txt"])]
       else [];
     stdout := [];
     opened := [] |}.

(** The same tree listed in another order. *)
Definition demo_world_reordered : world :=
  {| fs_read := demo_read;
     fs_walk := fun root =>
       if str_eqb root (lit "src")
       then [(lit "src", [],
              [lit "broken.php"; lit "notes.txt"; lit "a.php";
               lit "index.php"; lit "b.php"; lit "plain.php"])]
       else [];
     stdout := [];
     opened := [] |}.

(** ** What the patterns mean

    [eol bol m] tells whether the position after [m] starts a line, when the
    position before it does according to [bol]. *)
Fixpoint eol (bol : bool) (m : str) : bool :=
  match m with
  | [] => bol
  | x :: m' => eol (is_nl x) m'
  end.

(** [den r bol m]: the text [m] is, as a whole, an instance of [r] at a
    position whose line-start status is [bol]. *)
Fixpoint den (r : Re.regex) (bol : bool) (m : str) : Prop :=
  match r with
  | [] => m = []
  | a :: r' =>
      match a with
      | Re.Bol => bol = true /\ den r' bol m
      | Re.Chr c => exists m', m = c :: m' /\ den r' (is_nl c) m'
      | Re.Cls p =>
          exists x m', m = x :: m' /\ p x = true /\ den r' (is_nl x) m'
      | Re.Star p =>
          exists ws m',
            m = ws ++ m' /\ forallb p ws = true /\ den r' (eol bol ws) m'
      | Re.Plus p =>
          exists x ws m',
            m = x :: ws ++ m' /\ p x = true /\ forallb p ws = true
            /\ den r' (eol (is_nl x) ws) m'
      end
  end.

(** [occurs_at r text g]: an instance of [r] starts at offset [g] of
    [text]. *)
Definition occurs_at (r : Re.regex) (text : str) (g : nat) : Prop :=
  exists pre m rest,
    text = pre ++ m ++ rest /\ List.length pre = g /\ den r (eol true pre) m.

(** The guard as the pattern has it: the two quotes are chosen
    independently. *)
Definition guard_text (ws1 : str) (q1 q2 : char) (ws2 : str) : str :=
  lit "defined(" ++ ws1 ++ q1 :: lit "ABSPATH" ++ q2 :: ws2 ++ lit ")".

Definition guard_at (text : str) (g : nat) : Prop :=
  exists pre ws1 q1 q2 ws2 rest,
    text = pre ++ guard_text ws1 q1 q2 ws2 ++ rest
    /\ List.length pre = g
    /\ forallb is_space ws1 = true /\ forallb is_space ws2 = true
    /\ is_quote q1 = true /\ is_quote q2 = true.

(** The guard as the specification words it: the closing quote is the
    opening one. *)
Definition matching_guard_at (text : str) (g : nat) : Prop :=
  exists pre ws1 q ws2 rest,
    text = pre ++ guard_text ws1 q q ws2 ++ rest
    /\ List.length pre = g
    /\ forallb is_space ws1 = true /\ forallb is_space ws2 = true
    /\ is_quote q = true.

(** The instances of the use pattern: white space, [use], at least one
    white space, at least one character of the last class. *)
Definition use_text (ws1 : str) (x : char) (ws2 : str) (y : char) (w : str)
  : str :=
  ws1 ++ lit "use" ++ x :: ws2 ++ y :: w.

Definition use_parts {ud : UnicodeData}
           (ws1 : str) (x : char) (ws2 : str) (y : char) (w : str) : Prop :=
  forallb is_space ws1 = true /\ is_space x = true
  /\ forallb is_space ws2 = true
  /\ is_word_or_backslash y = true /\ forallb is_word_or_backslash w = true.

(** A pattern has no late match when text added at the end of [A] cannot
    create an instance at the head of [A] while [A] already holds an
    instance further on. *)
Definition no_late_match (r : Re.regex) : Prop :=
  forall bol A Y M R pre M2 R2,
    A ++ Y = M ++ R -> den r bol M ->
    A = pre ++ M2 ++ R2 -> pre <> [] -> den r (eol bol pre) M2 ->
    exists M' R', A = M' ++ R' /\ den r bol M'.

(** ** What a run leaves behind *)

(** The world after printing the lines [out] and opening the paths [ops]. *)
Definition advance (w : world) (out ops : list str) : world :=
  mkWorld (fs_read w) (fs_walk w) (stdout w ++ out) (opened w ++ ops).

(** What [check_file] returns for a path, as a function of the files. *)
Definition outcome {ud : UnicodeData} (read : str -> option str) (p : str)
  : option str :=
  match read p with
  | Some content => check_content p content
  | None => None
  end.

Definition flagged {ud : UnicodeData} (read : str -> option str) (p : str)
  : bool :=
  truthy (outcome read p).

Definition candidates_in (dirpath : str) (filenames : list str) : list str :=
  map (path_join dirpath) (filter is_candidate filenames).

(** ** Further notions about the two scripts *)

(** The text [pre] in front of a position makes it the start of a line. *)
Definition is_line_start (pre : str) : Prop :=
  pre = [] \/ exists B, pre = B ++ [newline].

(** A use statement, as the pattern sees it, starts at offset [g] of
    [text]. *)
Definition use_at {ud : UnicodeData} (text : str) (g : nat) : Prop :=
  exists pre ws1 x ws2 y w rest,
    text = pre ++ use_text ws1 x ws2 y w ++ rest
    /\ List.length pre = g
    /\ is_line_start pre
    /\ use_parts ws1 x ws2 y w.

(** Matches that follow one another from offset [lo] on without
    overlapping, each with at least one character. *)
Fixpoint separated (lo : nat) (l : list Re.Match) : Prop :=
  match l with
  | [] => True
  | m :: l' =>
      lo <= Re.start m /\ Re.start m < Re.stop m /\ separated (Re.stop m) l'
  end.

(** Lines 24 to 40 of [debug_check.py] as a function of [content]. *)
Definition debug_lines {ud : UnicodeData} (content : str) : list debug_line :=
  let use_statements := map Re.start (Re.finditer use_re content) in
  let abspath_check := Re.search abspath_re content in
  [UseStatementsFound (List.length use_statements)]
  ++ match use_statements with
     | first :: _ => [FirstUseAt first]
     | [] => []
     end
  ++ match abspath_check with
     | Some m => [CheckFoundAt (Re.start m); MatchText (group0 content m)]
     | None => []
     end
  ++ match use_statements, abspath_check with
     | first :: _, Some m =>
         if Re.start m <? first then [Detected] else [OkAfterOrEqual]
     | _, _ => [NotDetectedBoth]
     end.


(** ** The matcher finds exactly the instances of a pattern *)

Lemma eol_app (bol : bool) (a b : str) : eol bol (a ++ b) = eol (eol bol a) b.
Proof.
  revert bol; induction a as [|x a IH]; intro bol; simpl; auto.
Qed.

Lemma star_keeps p k bol s n :
  k bol s = Some n -> exists n', Re.star p k bol s = Some n'.
Proof.
  intro H. destruct s as [|x s]; simpl; eauto.
  destruct (p x); eauto.
  destruct (Re.star p k (is_nl x) s); eauto.
Qed.

Lemma star_sound p k s :
  forall bol n,
    Re.star p k bol s = Some n ->
    exists ws s' n',
      s = ws ++ s' /\ forallb p ws = true
      /\ k (eol bol ws) s' = Some n' /\ n = List.length ws + n'.
Proof.
  induction s as [|x s IH]; intros bol n H; simpl in H.
  - exists [], [], n. auto.
  - destruct (p x) eqn:Hp.
    + destruct (Re.star p k (is_nl x) s) as [n0|] eqn:Hs.
      * inversion H; subst n.
        destruct (IH _ _ Hs) as (ws & s' & n' & -> & Hall & Hk & ->).
        exists (x :: ws), s', n'. simpl. rewrite Hp. auto.
      * exists [], (x :: s), n. auto.
    + exists [], (x :: s), n. auto.
Qed.

Lemma star_complete p k ws :
  forallb p ws = true ->
  forall bol s' n',
    k (eol bol ws) s' = Some n' ->
    exists n, Re.star p k bol (ws ++ s') = Some n.
Proof.
  induction ws as [|x ws IH]; intros Hall bol s' n' Hk; simpl in *.
  - eapply star_keeps; eauto.
  - apply andb_true_iff in Hall as [Hp Hall]. rewrite Hp.
    destruct (IH Hall _ _ _ Hk) as [n ->]. eauto.
Qed.

Lemma match_sound r :
  forall bol s n,
    Re.match_here r bol s = Some n ->
    exists m rest, s = m ++ rest /\ List.length m = n /\ den r bol m.
Proof.
  induction r as [|a r IH]; intros bol s n H.
  - inversion H. exists [], s. simpl. auto.
  - destruct a as [|c|p|p|p]; simpl in H.
    + destruct bol; [|discriminate].
      destruct (IH _ _ _ H) as (m & rest & ? & ? & ?).
      exists m, rest. simpl. auto.
    + destruct s as [|x s]; [discriminate|].
      destruct (N.eqb_spec x c); [subst x|discriminate].
      destruct (Re.match_here r (is_nl c) s) as [n0|] eqn:Hm; [|discriminate].
      inversion H; subst n.
      destruct (IH _ _ _ Hm) as (m & rest & -> & <- & ?).
      exists (c :: m), rest. simpl. eauto.
    + destruct s as [|x s]; [discriminate|].
      destruct (p x) eqn:Hp; [|discriminate].
      destruct (Re.match_here r (is_nl x) s) as [n0|] eqn:Hm; [|discriminate].
      inversion H; subst n.
      destruct (IH _ _ _ Hm) as (m & rest & -> & <- & ?).
      exists (x :: m), rest. simpl.
      split; [reflexivity|split; [reflexivity|]]. exists x, m. auto.
    + destruct (star_sound _ _ _ _ _ H) as (ws & s' & n' & -> & Hall & Hk & ->).
      destruct (IH _ _ _ Hk) as (m & rest & -> & <- & ?).
      exists (ws ++ m), rest. rewrite <- app_assoc, length_app.
      split; [reflexivity|split; [reflexivity|]]. simpl. exists ws, m. auto.
    + destruct s as [|x s]; [discriminate|].
      destruct (p x) eqn:Hp; [|discriminate].
      destruct (Re.star p (Re.match_here r) (is_nl x) s) as [n0|] eqn:Hs;
        [|discriminate].
      inversion H; subst n.
      destruct (star_sound _ _ _ _ _ Hs) as (ws & s' & n' & -> & Hall & Hk & ->).
      destruct (IH _ _ _ Hk) as (m & rest & -> & <- & ?).
      exists (x :: ws ++ m), rest. simpl. rewrite <- app_assoc, length_app.
      split; [reflexivity|split; [reflexivity|]]. exists x, ws, m. auto.
Qed.

Lemma match_complete r :
  forall bol m,
    den r bol m ->
    forall rest, exists n, Re.match_here r bol (m ++ rest) = Some n.
Proof.
  induction r as [|a r IH]; intros bol m H rest.
  - simpl. eauto.
  - destruct a as [|c|p|p|p]; simpl in H.
    + destruct H as [-> H]. simpl. eauto.
    + destruct H as (m' & -> & H). simpl. rewrite N.eqb_refl.
      destruct (IH _ _ H rest) as [n ->]. simpl. eauto.
    + destruct H as (x & m' & -> & Hp & H). simpl. rewrite Hp.
      destruct (IH _ _ H rest) as [n ->]. simpl. eauto.
    + destruct H as (ws & m' & -> & Hall & H). simpl.
      destruct (IH _ _ H rest) as [n Hn].
      rewrite <- app_assoc. eapply star_complete; eauto.
    + destruct H as (x & ws & m' & -> & Hp & Hall & H). simpl. rewrite Hp.
      destruct (IH _ _ H rest) as [n Hn].
      rewrite <- app_assoc.
      destruct (star_complete _ _ _ Hall _ _ _ Hn) as [n' ->]. simpl. eauto.
Qed.

Lemma match_here_occurs r bol s :
  (exists n, Re.match_here r bol s = Some n) <->
  (exists m rest, s = m ++ rest /\ den r bol m).
Proof.
  split.
  - intros [n H]. destruct (match_sound _ _ _ _ H) as (m & rest & ? & _ & ?).
    eauto.
  - intros (m & rest & -> & H). apply match_complete; assumption.
Qed.

Lemma match_here_None r bol m rest :
  Re.match_here r bol (m ++ rest) = None -> ~ den r bol m.
Proof.
  intros H D. destruct (match_complete _ _ _ D rest) as [n Hn]. congruence.
Qed.

(** ** [re.search] returns the leftmost position that has a match *)

Lemma search_at_Some r s :
  forall bol pos m,
    Re.search_at r bol s pos = Some m ->
    exists pre suf n,
      s = pre ++ suf
      /\ Re.start m = pos + List.length pre
      /\ Re.stop m = Re.start m + n
      /\ Re.match_here r (eol bol pre) suf = Some n
      /\ forall pre' suf',
           s = pre' ++ suf' -> List.length pre' < List.length pre ->
           Re.match_here r (eol bol pre') suf' = None.
Proof.
  induction s as [|x s IH]; intros bol pos m H; simpl in H.
  - destruct (Re.match_here r bol []) as [n|] eqn:Hm; [|discriminate].
    inversion H; subst m; simpl.
    exists [], [], n. simpl.
    repeat split; auto; try lia; intros pre' suf' _ Hlt; simpl in Hlt; lia.
  - destruct (Re.match_here r bol (x :: s)) as [n|] eqn:Hm.
    + inversion H; subst m; simpl.
      exists [], (x :: s), n. simpl.
      repeat split; auto; try lia; intros pre' suf' _ Hlt; simpl in Hlt; lia.
    + destruct (IH _ _ _ H) as (pre & suf & n & -> & Hs & He & Hn & Hmin).
      exists (x :: pre), suf, n. simpl. repeat split; auto; try lia.
      intros pre' suf' Heq Hlt.
      destruct pre' as [|y pre']; simpl in *.
      * subst suf'. assumption.
      * inversion Heq; subst y. apply Hmin; auto. lia.
Qed.

Lemma search_at_None r s :
  forall bol pos,
    Re.search_at r bol s pos = None ->
    forall pre suf, s = pre ++ suf -> Re.match_here r (eol bol pre) suf = None.
Proof.
  induction s as [|x s IH]; intros bol pos H pre suf Heq; simpl in H.
  - destruct (Re.match_here r bol []) eqn:Hm; [discriminate|].
    symmetry in Heq. apply app_eq_nil in Heq as [-> ->]. assumption.
  - destruct (Re.match_here r bol (x :: s)) eqn:Hm; [discriminate|].
    destruct pre as [|y pre]; simpl in *.
    + subst suf. assumption.
    + inversion Heq; subst y. eapply IH; eauto.
Qed.

Lemma search_at_found r pre :
  forall bol pos suf n,
    Re.match_here r (eol bol pre) suf = Some n ->
    exists m, Re.search_at r bol (pre ++ suf) pos = Some m.
Proof.
  induction pre as [|x pre IH]; intros bol pos suf n H; simpl in *.
  - destruct suf; simpl; rewrite H; eauto.
  - destruct (Re.match_here r bol (x :: pre ++ suf)); eauto.
Qed.

Lemma search_start_occurs r text m :
  Re.search r text = Some m ->
  occurs_at r text (Re.start m)
  /\ forall g, g < Re.start m -> ~ occurs_at r text g.
Proof.
  intro H. apply search_at_Some in H.
  destruct H as (pre & suf & n & -> & Hs & _ & Hn & Hmin). simpl in Hs.
  split.
  - destruct (match_sound _ _ _ _ Hn) as (mm & rest & -> & _ & D).
    exists pre, mm, rest. auto.
  - intros g Hg (pre' & m' & rest' & Heq & Hlen & D).
    specialize (Hmin pre' (m' ++ rest') Heq).
    eapply match_here_None; [apply Hmin; lia|exact D].
Qed.

Lemma search_None_iff r text :
  Re.search r text = None <-> forall g, ~ occurs_at r text g.
Proof.
  split.
  - intros H g (pre & m & rest & Heq & _ & D).
    eapply match_here_None; [|exact D].
    eapply search_at_None; eauto.
  - intro H. destruct (Re.search r text) as [m|] eqn:Hs; [|reflexivity].
    apply search_start_occurs in Hs as [Ho _]. elim (H _ Ho).
Qed.

Lemma occurs_search r text g :
  occurs_at r text g -> exists m, Re.search r text = Some m.
Proof.
  intro Ho. destruct (Re.search r text) as [m|] eqn:Hs; eauto.
  apply search_None_iff with (g := g) in Hs. contradiction.
Qed.

(** The first item of [re.finditer] is the match of [re.search]. *)
Lemma finditer_at_head r s :
  forall bol pos,
    hd_error (Re.finditer_at r bol s pos 0) = Re.search_at r bol s pos.
Proof.
  induction s as [|x s IH]; intros bol pos; simpl.
  - destruct (Re.match_here r bol []); reflexivity.
  - destruct (Re.match_here r bol (x :: s)); [reflexivity|apply IH].
Qed.

Lemma finditer_head r s : hd_error (Re.finditer r s) = Re.search r s.
Proof. apply finditer_at_head. Qed.

(** ** The instances of the guard pattern *)

Ltac break_den :=
  repeat match goal with
         | H : exists _, _ |- _ => destruct H
         | H : _ /\ _ |- _ => destruct H
         end.

Lemma den_abspath bol m :
  den abspath_re bol m <->
  exists ws1 q1 q2 ws2,
    m = guard_text ws1 q1 q2 ws2
    /\ forallb is_space ws1 = true /\ forallb is_space ws2 = true
    /\ is_quote q1 = true /\ is_quote q2 = true.
Proof.
  split.
  - intro H. cbn in H. break_den. subst.
    match goal with
    | H1 : forallb is_space ?a = true, H2 : forallb is_space ?b = true,
      Q1 : is_quote ?q = true, Q2 : is_quote ?q' = true |- _ =>
        first [ exists a, q, q', b; split; [reflexivity|auto]
              | exists a, q', q, b; split; [reflexivity|auto]
              | exists b, q, q', a; split; [reflexivity|auto]
              | exists b, q', q, a; split; [reflexivity|auto] ]
    end.
  - intros (ws1 & q1 & q2 & ws2 & -> & H1 & H2 & Q1 & Q2).
    cbn.
    do 8 (eexists; split; [reflexivity|]).
    exists ws1. eexists. split; [reflexivity|]. split; [assumption|].
    exists q1. eexists. split; [reflexivity|]. split; [assumption|].
    do 7 (eexists; split; [reflexivity|]).
    exists q2. eexists. split; [reflexivity|]. split; [assumption|].
    exists ws2. eexists. split; [reflexivity|]. split; [assumption|].
    eexists; split; reflexivity.
Qed.

Lemma guard_at_occurs text g :
  guard_at text g <-> occurs_at abspath_re text g.
Proof.
  split.
  - intros (pre & ws1 & q1 & q2 & ws2 & rest & -> & Hl & H).
    exists pre, (guard_text ws1 q1 q2 ws2), rest.
    split; [reflexivity|split; [assumption|]].
    apply den_abspath. exists ws1, q1, q2, ws2. auto.
  - intros (pre & m & rest & -> & Hl & D).
    apply den_abspath in D as (ws1 & q1 & q2 & ws2 & -> & H).
    exists pre, ws1, q1, q2, ws2, rest. auto.
Qed.

(** ** Text added after a first match does not move it *)

Lemma match_here_extend r bol s n Y :
  Re.match_here r bol s = Some n ->
  exists n', Re.match_here r bol (s ++ Y) = Some n'.
Proof.
  intro H. destruct (match_sound _ _ _ _ H) as (m & rest & -> & _ & D).
  rewrite <- app_assoc. apply match_complete; assumption.
Qed.

Lemma search_at_extend r (Hr : no_late_match r) A :
  forall bol pos m Y,
    Re.search_at r bol A pos = Some m ->
    exists m', Re.search_at r bol (A ++ Y) pos = Some m'
               /\ Re.start m' = Re.start m.
Proof.
  induction A as [|x A IH]; intros bol pos m Y H; simpl in H.
  - destruct (Re.match_here r bol []) as [n|] eqn:Hm; [|discriminate].
    inversion H; subst m; simpl.
    destruct (match_here_extend _ _ _ _ Y Hm) as [n' Hn']. simpl in Hn'.
    destruct Y; simpl; rewrite Hn'; eauto.
  - destruct (Re.match_here r bol (x :: A)) as [n|] eqn:Hm.
    + inversion H; subst m; simpl.
      destruct (match_here_extend _ _ _ _ Y Hm) as [n' Hn']. simpl in Hn'.
      rewrite Hn'. eauto.
    + simpl.
      destruct (Re.match_here r bol (x :: A ++ Y)) as [n'|] eqn:Hm'.
      * exfalso.
        destruct (match_sound _ _ _ _ Hm') as (M & R & HM & _ & DM).
        destruct (search_at_Some _ _ _ _ _ H)
          as (pre & suf & n & -> & _ & _ & Hn & _).
        destruct (match_sound _ _ _ _ Hn) as (M2 & R2 & -> & _ & D2).
        destruct (Hr bol (x :: pre ++ M2 ++ R2) Y M R (x :: pre) M2 R2)
          as (M' & R' & HA & D'); auto; try discriminate.
        rewrite HA in Hm.
        eapply match_here_None; eauto.
      * apply IH; assumption.
Qed.

Lemma search_extend r (Hr : no_late_match r) A Y m :
  Re.search r A = Some m ->
  exists m', Re.search r (A ++ Y) = Some m' /\ Re.start m' = Re.start m.
Proof. apply search_at_extend; assumption. Qed.

Lemma in_guard_tail c ws1 q1 q2 ws2 :
  forallb is_space ws1 = true -> forallb is_space ws2 = true ->
  is_quote q1 = true -> is_quote q2 = true ->
  In c (ws1 ++ q1 :: lit "ABSPATH" ++ q2 :: ws2 ++ lit ")") ->
  c <> 100%N.
Proof.
  intros H1 H2 Q1 Q2 Hin ->.
  rewrite forallb_forall in H1, H2.
  apply in_app_or in Hin as [Hin|Hin]; [apply H1 in Hin; discriminate|].
  destruct Hin as [Hq|Hin]; [subst q1; discriminate|].
  cbn in Hin.
  do 7 (destruct Hin as [Hin|Hin]; [discriminate|]).
  destruct Hin as [Hq|Hin]; [subst q2; discriminate|].
  apply in_app_or in Hin as [Hin|Hin]; [apply H2 in Hin; discriminate|].
  cbn in Hin. destruct Hin as [Hin|[]]. discriminate.
Qed.

(** No instance of the guard holds a second [de] after its first
    character. *)
Lemma guard_no_inner ws1 q1 q2 ws2 pre t :
  forallb is_space ws1 = true -> forallb is_space ws2 = true ->
  is_quote q1 = true -> is_quote q2 = true ->
  pre <> [] ->
  guard_text ws1 q1 q2 ws2 = pre ++ 100%N :: 101%N :: t -> False.
Proof.
  intros H1 H2 Q1 Q2 Hne H. unfold guard_text in H. cbn in H.
  destruct pre as [|a1 pre]; [congruence|].
  do 7 (destruct pre as [|? pre]; [discriminate|]).
  cbn in H. injection H as _ _ _ _ _ _ _ _ H.
  eapply (in_guard_tail 100%N ws1 q1 q2 ws2); auto.
  cbn. rewrite H. apply in_or_app. right. left. reflexivity.
Qed.

Lemma abspath_no_late_match : no_late_match abspath_re.
Proof.
  intros bol A Y M R pre M2 R2 HA DM HA2 Hne D2.
  apply app_eq_app in HA as [l [[-> _]|[HM _]]].
  - exists M, l. auto.
  - exfalso.
    apply den_abspath in DM as (ws1 & q1 & q2 & ws2 & -> & H1 & H2 & Q1 & Q2).
    apply den_abspath in D2 as (v1 & p1 & p2 & v2 & -> & _).
    subst A. remember (guard_text ws1 q1 q2 ws2) as G eqn:HG.
    unfold guard_text in HM. rewrite <- app_assoc in HM. cbn in HM.
    subst G. exact (guard_no_inner _ _ _ _ _ _ H1 H2 Q1 Q2 Hne HM).
Qed.

(** ** The instances of the use pattern *)

Lemma eol_true_last bol pre :
  pre <> [] -> eol bol pre = true -> exists B, pre = B ++ [newline].
Proof.
  intros Hne H. destruct (exists_last Hne) as (B & c & ->).
  rewrite eol_app in H. simpl in H. apply N.eqb_eq in H. subst c. eauto.
Qed.

Lemma span_unique (sp : char -> bool) l1 :
  forall l2 a b t1 t2,
    forallb sp l1 = true -> forallb sp l2 = true ->
    sp a = false -> sp b = false ->
    l1 ++ a :: t1 = l2 ++ b :: t2 ->
    l1 = l2 /\ a :: t1 = b :: t2.
Proof.
  induction l1 as [|c l1 IH]; intros l2 a b t1 t2 H1 H2 Ha Hb H.
  - destruct l2 as [|d l2]; simpl in *; [auto|].
    injection H as -> _. apply andb_true_iff in H2 as [H2 _]. congruence.
  - destruct l2 as [|d l2]; simpl in *.
    + injection H as -> _. apply andb_true_iff in H1 as [H1 _]. congruence.
    + injection H as -> H.
      apply andb_true_iff in H1 as [_ H1]. apply andb_true_iff in H2 as [_ H2].
      destruct (IH _ _ _ _ _ H1 H2 Ha Hb H) as [-> ?]. auto.
Qed.

Section UseFacts.

Context {ud : UnicodeData}.

Lemma den_use bol m :
  den use_re bol m <->
  bol = true
  /\ exists ws1 x ws2 y w,
       m = use_text ws1 x ws2 y w /\ use_parts ws1 x ws2 y w.
Proof.
  unfold use_parts, use_text. split.
  - intro H. cbn in H. break_den. subst. split; [reflexivity|].
    rewrite app_nil_r.
    match goal with
    | |- exists ws1 x ws2 y w, ?a ++ _ :: _ :: _ :: ?b :: ?c ++ ?d :: ?e = _ /\ _ =>
        exists a, b, c, d, e
    end.
    auto 10.
  - intros (-> & ws1 & x & ws2 & y & w & -> & H1 & Hx & H2 & Hy & Hw).
    cbn. split; [reflexivity|].
    exists ws1. eexists. split; [reflexivity|]. split; [assumption|].
    do 3 (eexists; split; [reflexivity|]).
    exists x, ws2. eexists. split; [reflexivity|].
    split; [assumption|]. split; [assumption|].
    exists y, w, []. rewrite app_nil_r. auto.
Qed.

Lemma use_word_u : is_word_or_backslash 117%N = true.
Proof. reflexivity. Qed.

(** Building an instance of the use pattern at the head of a text. *)
Lemma use_instance ws1 x ws2 y w rest A :
  use_parts ws1 x ws2 y w ->
  A = ws1 ++ 117%N :: 115%N :: 101%N :: x :: ws2 ++ y :: w ++ rest ->
  exists M' R', A = M' ++ R' /\ den use_re true M'.
Proof.
  intros P ->. exists (use_text ws1 x ws2 y w), rest. split.
  - unfold use_text. rewrite <- app_assoc. cbn. rewrite <- app_assoc.
    reflexivity.
  - apply den_use. split; [reflexivity|]. exists ws1, x, ws2, y, w. auto.
Qed.

Ltac list_eq :=
  subst; cbn; repeat (rewrite <- app_assoc; cbn); reflexivity.

Ltac parts :=
  unfold use_parts; cbn;
  repeat rewrite forallb_app; cbn;
  repeat match goal with
         | H : _ = true |- _ => rewrite H
         end;
  auto.

Lemma use_no_late_match : no_late_match use_re.
Proof.
  intros bol A Y M R pre M2 R2 HA DM HA2 Hne D2.
  apply den_use in DM
    as (-> & ws1 & x & ws2 & y & w & -> & H1 & Hx & H2 & Hy & Hw).
  apply den_use in D2
    as (Hb & v1 & x' & v2 & y' & w' & -> & G1 & Gx & G2 & Gy & Gw).
  destruct (eol_true_last _ _ Hne Hb) as [B ->]. clear Hne Hb.
  unfold use_text in HA, HA2. subst A.
  repeat rewrite <- app_assoc in HA. cbn in HA.
  repeat rewrite <- app_assoc in HA. cbn in HA.
  apply app_eq_app in HA as [l [[HB HT]|[HW HT]]].
  - (* the later line starts inside or after the keyword *)
    destruct l as [|c0 l]; [discriminate|]. injection HT as <- HT.
    destruct l as [|c1 l]; [discriminate|]. injection HT as <- HT.
    destruct l as [|c2 l]; [discriminate|]. injection HT as <- HT.
    destruct l as [|c3 l].
    + (* the white space after the keyword starts with the line break *)
      cbn in HT. injection HT as -> HT.
      eapply (use_instance ws1 newline v1 117%N [] _); [parts|list_eq].
    + injection HT as <- HT.
      apply app_eq_app in HT as [l5 [[HW2 _]|[HL HT]]].
      * subst ws2. rewrite forallb_app in H2.
        apply andb_true_iff in H2 as [H2 _].
        eapply (use_instance ws1 x (l ++ newline :: v1) 117%N [] _);
          [parts|list_eq].
      * destruct l5 as [|c5 l5].
        -- rewrite app_nil_r in HL. subst l.
           eapply (use_instance ws1 x (ws2 ++ newline :: v1) 117%N [] _);
             [parts|list_eq].
        -- injection HT as <- HT.
           eapply (use_instance ws1 x ws2 y [] _); [parts|list_eq].
  - (* the later line starts within the leading white space *)
    destruct l as [|c0 l]; [discriminate|]. injection HT as <- HT.
    subst ws1. rewrite forallb_app in H1. cbn in H1.
    apply andb_true_iff in H1 as [HB Hl].
    destruct (span_unique is_space v1 l 117%N 117%N _ _ G1 Hl eq_refl eq_refl HT)
      as [-> _].
    eapply (use_instance (B ++ newline :: l) x' v2 y' w' R2);
      [parts|list_eq].
Qed.

End UseFacts.

(** ** The effect of the script on the world *)

Lemma str_eqb_eq a : forall b, str_eqb a b = true <-> a = b.
Proof.
  induction a as [|x a IH]; intros [|y b]; simpl; split; intro H;
    try reflexivity; try discriminate.
  - apply andb_true_iff in H as [Hx Hab].
    apply N.eqb_eq in Hx. apply IH in Hab. congruence.
  - inversion H; subst. rewrite N.eqb_refl. apply IH. reflexivity.
Qed.

Lemma skipn_length_app {A : Type} (l x : list A) :
  skipn (List.length l) (l ++ x) = x.
Proof. induction l; simpl; auto. Qed.

Lemma advance_nil w : advance w [] [] = w.
Proof. destruct w. unfold advance. simpl. rewrite !app_nil_r. reflexivity. Qed.

Lemma advance_advance w a b c d :
  advance (advance w a b) c d = advance w (a ++ c) (b ++ d).
Proof. unfold advance. simpl. rewrite !app_assoc. reflexivity. Qed.

Lemma endswith_nonempty s p : p <> [] -> endswith s p = true -> s <> [].
Proof.
  intros Hp H ->. unfold endswith in H. simpl in H.
  destruct (rev p) eqn:E; [|discriminate].
  apply (f_equal (@rev char)) in E. rewrite rev_involutive in E. auto.
Qed.

Lemma path_join_nonempty a b : b <> [] -> path_join a b <> [].
Proof.
  intros Hb. unfold path_join.
  destruct (startswith b (lit "/")); [assumption|].
  destruct a as [|x a]; [assumption|].
  destruct (endswith (x :: a) (lit "/")); discriminate.
Qed.

Lemma in_candidates_in p dirpath filenames :
  In p (candidates_in dirpath filenames) <->
  exists filename,
    In filename filenames /\ is_candidate filename = true
    /\ p = path_join dirpath filename.
Proof.
  unfold candidates_in. rewrite in_map_iff. split.
  - intros (f & <- & Hf). apply filter_In in Hf as [? ?]. eauto.
  - intros (f & Hin & Hc & ->). exists f. split; [reflexivity|].
    apply filter_In. auto.
Qed.

Lemma in_candidates w p :
  In p (candidates w) <->
  exists dirpath dirnames filenames filename,
    In (dirpath, dirnames, filenames) (fs_walk w root_dir)
    /\ In filename filenames /\ is_candidate filename = true
    /\ p = path_join dirpath filename.
Proof.
  unfold candidates. rewrite in_flat_map. split.
  - intros ([[d ds] fs] & Hin & Hp).
    apply in_candidates_in in Hp as (f & ? & ? & ?).
    exists d, ds, fs, f. auto.
  - intros (d & ds & fs & f & Hin & Hf & Hc & Hp).
    exists (d, ds, fs). split; [assumption|].
    apply in_candidates_in. eauto.
Qed.

Lemma is_candidate_spec filename :
  is_candidate filename = true <->
  endswith filename (lit ".php") = true /\ filename <> lit "index.php".
Proof.
  unfold is_candidate. rewrite andb_true_iff, negb_true_iff.
  split; intros [H1 H2]; split; auto.
  - intro E. apply str_eqb_eq in E. congruence.
  - destruct (str_eqb filename (lit "index.php")) eqn:E; [|reflexivity].
    apply str_eqb_eq in E. contradiction.
Qed.

Lemma candidate_nonempty w p : In p (candidates w) -> p <> [].
Proof.
  intro H. apply in_candidates in H as (d & ds & fs & f & _ & _ & Hc & ->).
  apply path_join_nonempty.
  apply is_candidate_spec in Hc as [He _].
  eapply endswith_nonempty; [|exact He]. discriminate.
Qed.

Section RunFacts.

Context {ud : UnicodeData}.

Lemma check_content_cases filepath content :
  check_content filepath content = None
  \/ check_content filepath content = Some filepath.
Proof.
  unfold check_content.
  destruct (map Re.start (Re.finditer use_re content)); auto.
  destruct (Re.search abspath_re content); auto.
  destruct (_ <? _); auto.
Qed.

Lemma check_file_eq filepath w :
  check_file filepath w = (outcome (fs_read w) filepath, advance w [] [filepath]).
Proof.
  unfold check_file, bind, open_read, outcome, advance, ret. simpl.
  rewrite app_nil_r. destruct (fs_read w filepath); reflexivity.
Qed.

Lemma outcome_cases read p : outcome read p = None \/ outcome read p = Some p.
Proof.
  unfold outcome. destruct (read p); auto. apply check_content_cases.
Qed.

Lemma visit_eq dirpath filename w :
  visit dirpath filename w =
  (tt, advance w (filter (flagged (fs_read w)) (candidates_in dirpath [filename]))
                 (candidates_in dirpath [filename])).
Proof.
  unfold visit, candidates_in. simpl.
  destruct (is_candidate filename); simpl.
  - unfold bind. rewrite check_file_eq. unfold flagged.
    destruct (outcome_cases (fs_read w) (path_join dirpath filename)) as [E|E];
      rewrite E; simpl.
    + reflexivity.
    + destruct (path_join dirpath filename) eqn:Ep; simpl.
      * reflexivity.
      * unfold print, advance. simpl. rewrite app_nil_r. reflexivity.
  - unfold ret. rewrite advance_nil. reflexivity.
Qed.

Lemma for_each_visit_eq dirpath filenames :
  forall w,
    for_each filenames (visit dirpath) w =
    (tt, advance w (filter (flagged (fs_read w)) (candidates_in dirpath filenames))
                   (candidates_in dirpath filenames)).
Proof.
  induction filenames as [|f fs IH]; intro w; simpl.
  - unfold ret, candidates_in. simpl. rewrite advance_nil. reflexivity.
  - unfold bind. rewrite visit_eq. cbv beta iota.
    rewrite IH, advance_advance. simpl fs_read.
    unfold candidates_in. simpl.
    destruct (is_candidate f); simpl.
    + destruct (flagged (fs_read w) (path_join dirpath f)); reflexivity.
    + reflexivity.
Qed.

Lemma main_eq w :
  main w =
  (tt, advance w (filter (flagged (fs_read w)) (candidates w)) (candidates w)).
Proof.
  unfold main, bind, os_walk, candidates.
  generalize (fs_walk w root_dir) as entries. intro entries.
  revert w. induction entries as [|[[d ds] fs] entries IH]; intro w; simpl.
  - unfold ret. rewrite advance_nil. reflexivity.
  - unfold bind. rewrite for_each_visit_eq. cbv beta iota.
    rewrite IH, advance_advance.
    simpl fs_read. rewrite filter_app. reflexivity.
Qed.

Lemma printed_eq w : printed w = filter (flagged (fs_read w)) (candidates w).
Proof.
  unfold printed. rewrite main_eq. simpl. apply skipn_length_app.
Qed.

Lemma examined_eq w : examined w = candidates w.
Proof.
  unfold examined. rewrite main_eq. simpl. apply skipn_length_app.
Qed.

Lemma in_printed w p :
  In p (printed w) <->
  In p (candidates w) /\ fst (check_file p w) = Some p.
Proof.
  rewrite printed_eq, filter_In, check_file_eq. simpl. unfold flagged.
  split; intros [Hc H]; split; auto.
  - destruct (outcome_cases (fs_read w) p) as [E|E]; rewrite E in *;
      [discriminate|reflexivity].
  - rewrite H. apply candidate_nonempty in Hc. destruct p; [congruence|].
    reflexivity.
Qed.

End RunFacts.

(** ** The detection rule *)

Lemma finditer_first r s :
  match Re.search r s with
  | Some m => exists rest, Re.finditer r s = m :: rest
  | None => Re.finditer r s = []
  end.
Proof.
  pose proof (finditer_head r s) as H.
  destruct (Re.finditer r s) as [|m rest]; simpl in H; rewrite <- H; eauto.
Qed.

Lemma first_start_extend r (Hr : no_late_match r) A Y u us :
  map Re.start (Re.finditer r A) = u :: us ->
  exists us', map Re.start (Re.finditer r (A ++ Y)) = u :: us'.
Proof.
  intro H.
  pose proof (finditer_first r A) as HA.
  destruct (Re.search r A) as [m|] eqn:Hs.
  - destruct HA as [rest HA]. rewrite HA in H. simpl in H.
    injection H as Hu _.
    destruct (search_extend r Hr A Y m Hs) as (m' & Hs' & Hm').
    pose proof (finditer_first r (A ++ Y)) as HY. rewrite Hs' in HY.
    destruct HY as [rest' ->]. simpl. exists (map Re.start rest'). congruence.
  - rewrite HA in H. discriminate.
Qed.

Lemma filter_Permutation {A : Type} (f : A -> bool) (l l' : list A) :
  Permutation l l' -> Permutation (filter f l) (filter f l').
Proof.
  induction 1 as [|x l l' _ IH|x y l|l l' l'' _ IH1 _ IH2]; simpl.
  - constructor.
  - destruct (f x); auto.
  - destruct (f x), (f y); auto. apply perm_swap.
  - eapply perm_trans; eauto.
Qed.

Lemma no_matching_guard_in_mismatched g :
  ~ matching_guard_at mismatched_guard g.
Proof.
  intros (pre & ws1 & q & ws2 & rest & H & _ & _ & _ & _).
  unfold mismatched_guard, guard_text in H.
  pose proof (f_equal (@List.length char) H) as HL.
  repeat (rewrite length_app in HL || simpl in HL).
  destruct pre; [|simpl in HL; lia].
  destruct ws1; [|simpl in HL; lia].
  destruct ws2; [|simpl in HL; lia].
  cbn in H. injection H as H1 H2 _. subst q. discriminate.
Qed.

Section Claims.

Context {ud : UnicodeData}.

Lemma check_content_by_offsets filepath content u us m :
  map Re.start (Re.finditer use_re content) = u :: us ->
  Re.search abspath_re content = Some m ->
  check_content filepath content =
  if Re.start m <? u then Some filepath else None.
Proof.
  intros Hu Hm. unfold check_content. rewrite Hu, Hm. reflexivity.
Qed.

Lemma check_content_extend filepath A Y u us m :
  map Re.start (Re.finditer use_re A) = u :: us ->
  Re.search abspath_re A = Some m ->
  check_content filepath (A ++ Y) = check_content filepath A.
Proof.
  intros Hu Hm.
  destruct (first_start_extend _ use_no_late_match A Y u us Hu) as [us' Hu'].
  destruct (search_extend _ abspath_no_late_match A Y m Hm) as (m' & Hm' & E).
  rewrite (check_content_by_offsets filepath _ _ _ _ Hu' Hm').
  rewrite (check_content_by_offsets filepath _ _ _ _ Hu Hm).
  rewrite E. reflexivity.
Qed.

Lemma check_content_inapplicable filepath content :
  Re.finditer use_re content = [] \/ Re.search abspath_re content = None ->
  check_content filepath content = None.
Proof.
  unfold check_content. intros [H|H]; rewrite H; simpl; [reflexivity|].
  destruct (map Re.start (Re.finditer use_re content)); reflexivity.
Qed.

Lemma check_file_result filepath w :
  fst (check_file filepath w) = outcome (fs_read w) filepath.
Proof. rewrite check_file_eq. reflexivity. Qed.

(** C1.  When the text read from [filepath] has a first use-statement match
    at offset [first_use_pos] and a guard match [m], [check_file] returns the
    path exactly when the guard starts strictly before the first use
    statement; with equal offsets, and with the guard later, it returns
    [None]. *)
Theorem check_file_strict_order w filepath content first_use_pos later m :
  fs_read w filepath = Some content ->
  map Re.start (Re.finditer use_re content) = first_use_pos :: later ->
  Re.search abspath_re content = Some m ->
  (fst (check_file filepath w) = Some filepath
   <-> Re.start m < first_use_pos)
  /\ (Re.start m = first_use_pos -> fst (check_file filepath w) = None)
  /\ (fst (check_file filepath w) = None <-> first_use_pos <= Re.start m).
Proof.
  intros Hread Hu Hm.
  rewrite check_file_result. unfold outcome. rewrite Hread.
  rewrite (check_content_by_offsets filepath _ _ _ _ Hu Hm).
  destruct (Nat.ltb_spec (Re.start m) first_use_pos) as [Hlt|Hge].
  - repeat split; intros; try reflexivity; try assumption;
      try discriminate; lia.
  - repeat split; intros; try reflexivity; try assumption;
      try discriminate; lia.
Qed.

(** C2.  Let [A] be a text that holds a use-statement match and a guard
    match.  Whatever is inserted after [A] ([X], in front of the rest [B] of
    the text, or at its end) leaves the result unchanged; the result is a
    function of the two first offsets alone, so every other text with the
    same two first offsets has the same result. *)
Theorem later_occurrences_ignored filepath A X B u us m :
  map Re.start (Re.finditer use_re A) = u :: us ->
  Re.search abspath_re A = Some m ->
  check_content filepath (A ++ X ++ B) = check_content filepath (A ++ B)
  /\ check_content filepath (A ++ B) =
     (if Re.start m <? u then Some filepath else None)
  /\ forall T us' m',
       map Re.start (Re.finditer use_re T) = u :: us' ->
       Re.search abspath_re T = Some m' ->
       Re.start m' = Re.start m ->
       check_content filepath T = check_content filepath (A ++ B).
Proof.
  intros Hu Hm.
  rewrite (check_content_extend filepath A (X ++ B) u us m Hu Hm).
  rewrite (check_content_extend filepath A B u us m Hu Hm).
  rewrite (check_content_by_offsets filepath _ _ _ _ Hu Hm).
  split; [reflexivity|split; [reflexivity|]].
  intros T us' m' HuT HmT E.
  rewrite (check_content_by_offsets filepath _ _ _ _ HuT HmT), E.
  reflexivity.
Qed.

(** C3.  When the text read from [filepath] has no use-statement match or no
    guard match, [check_file] returns [None] and the run does not print the
    path. *)
Theorem inapplicable_gives_None w filepath content :
  fs_read w filepath = Some content ->
  Re.finditer use_re content = [] \/ Re.search abspath_re content = None ->
  fst (check_file filepath w) = None /\ ~ In filepath (printed w).
Proof.
  intros Hread Hno.
  assert (E : fst (check_file filepath w) = None).
  { rewrite check_file_result. unfold outcome. rewrite Hread.
    apply check_content_inapplicable. assumption. }
  split; [assumption|].
  intro Hin. apply in_printed in Hin as [_ Hin]. congruence.
Qed.

(** C4 (as amended).  [re.search] with the guard pattern returns the least
    offset at which the text reads: [defined(], optional white space, a
    quote, [ABSPATH], a quote, optional white space, [)], where each of the
    two quotes is a single or a double quote independently of the other; it
    returns [None] exactly when there is no such offset.  A guard written
    with two different quotes is matched. *)
Theorem guard_offset_is_first_loose_match text :
  match Re.search abspath_re text with
  | Some m =>
      guard_at text (Re.start m)
      /\ forall g, g < Re.start m -> ~ guard_at text g
  | None => forall g, ~ guard_at text g
  end
  /\ guard_at mismatched_guard 0.
Proof.
  split.
  - destruct (Re.search abspath_re text) as [m|] eqn:Hs.
    + apply search_start_occurs in Hs as [Ho Hmin]. split.
      * apply guard_at_occurs. assumption.
      * intros g Hg Hat. apply guard_at_occurs in Hat. eapply Hmin; eauto.
    + intros g Hat. apply guard_at_occurs in Hat.
      eapply search_None_iff in Hs. eauto.
  - exists [], [], squote, dquote, [], []. repeat split.
Qed.

Lemma filter_implied {A : Type} (f g : A -> bool) (l : list A) :
  (forall x, In x l -> f x = true -> g x = true) ->
  filter f (filter g l) = filter f l.
Proof.
  induction l as [|x l IH]; intro H; simpl; [reflexivity|].
  destruct (g x) eqn:Hg; simpl.
  - rewrite IH; [reflexivity|]. intros; apply H; simpl; auto.
  - destruct (f x) eqn:Hf.
    + rewrite H in Hg; simpl; auto. discriminate.
    + apply IH. intros; apply H; simpl; auto.
Qed.

Lemma visit_skip dirpath filename w :
  is_candidate filename = false -> visit dirpath filename w = (tt, w).
Proof. intro H. unfold visit. rewrite H. reflexivity. Qed.

Lemma candidates_in_app dirpath l1 l2 :
  candidates_in dirpath (l1 ++ l2) =
  candidates_in dirpath l1 ++ candidates_in dirpath l2.
Proof. unfold candidates_in. rewrite filter_app, map_app. reflexivity. Qed.

(** C5.  Every path the run opens or prints is the join of a walked
    directory with one of its file names that ends with [.php] and is not
    [index.php].  The loop body does nothing for the name [index.php] and
    for a name without the suffix, in any world, hence whatever the file
    holds; a listing with [index.php] runs as the listing without it. *)
Theorem walker_filters_by_name w :
  (forall p,
      In p (examined w) \/ In p (printed w) ->
      exists dirpath dirnames filenames filename,
        In (dirpath, dirnames, filenames) (fs_walk w root_dir)
        /\ In filename filenames
        /\ endswith filename (lit ".php") = true
        /\ filename <> lit "index.php"
        /\ p = path_join dirpath filename)
  /\ (forall dirpath, visit dirpath (lit "index.php") w = (tt, w))
  /\ (forall dirpath filename,
         endswith filename (lit ".php") = false ->
         visit dirpath filename w = (tt, w))
  /\ (forall dirpath before after,
         for_each (before ++ lit "index.php" :: after) (visit dirpath) w =
         for_each (before ++ after) (visit dirpath) w).
Proof.
  split; [|split; [|split]].
  - intros p Hp.
    assert (Hc : In p (candidates w)).
    { destruct Hp as [Hp|Hp].
      - rewrite examined_eq in Hp. assumption.
      - apply in_printed in Hp as [Hp _]. assumption. }
    apply in_candidates in Hc as (d & ds & fs & f & H1 & H2 & H3 & H4).
    apply is_candidate_spec in H3 as [H3 H5].
    exists d, ds, fs, f. auto.
  - intro dirpath. apply visit_skip. reflexivity.
  - intros dirpath filename H. apply visit_skip.
    unfold is_candidate. rewrite H. reflexivity.
  - intros dirpath before after.
    rewrite !for_each_visit_eq, !candidates_in_app. reflexivity.
Qed.

(** C6.  When opening, reading or decoding a candidate fails, [check_file]
    returns [None], the loop body prints nothing, and the loop goes on: the
    output of a directory is what it is without that file name, and the
    output of the whole run is what the other candidates give. *)
Theorem unreadable_file_skipped w dirpath before filename after :
  fs_read w (path_join dirpath filename) = None ->
  fst (check_file (path_join dirpath filename) w) = None
  /\ stdout (snd (visit dirpath filename w)) = stdout w
  /\ stdout (snd (for_each (before ++ filename :: after) (visit dirpath) w))
     = stdout (snd (for_each (before ++ after) (visit dirpath) w))
  /\ ~ In (path_join dirpath filename) (printed w)
  /\ printed w =
     filter (flagged (fs_read w))
       (filter (fun p => negb (str_eqb p (path_join dirpath filename)))
          (candidates w)).
Proof.
  intro Hread.
  assert (Hf : flagged (fs_read w) (path_join dirpath filename) = false).
  { unfold flagged, outcome. rewrite Hread. reflexivity. }
  assert (Hone :
    filter (flagged (fs_read w)) (candidates_in dirpath [filename]) = []).
  { unfold candidates_in. simpl.
    destruct (is_candidate filename); simpl; [rewrite Hf|]; reflexivity. }
  split; [|split; [|split; [|split]]].
  - rewrite check_file_result. unfold outcome. rewrite Hread. reflexivity.
  - rewrite visit_eq. simpl. rewrite Hone. apply app_nil_r.
  - rewrite !for_each_visit_eq. simpl.
    change (filename :: after) with ([filename] ++ after).
    rewrite !candidates_in_app, !filter_app, Hone. reflexivity.
  - intro Hin. apply in_printed in Hin as [_ Hin].
    rewrite check_file_result in Hin. unfold outcome in Hin.
    rewrite Hread in Hin. discriminate.
  - rewrite printed_eq. symmetry. apply filter_implied.
    intros x _ Hx.
    destruct (str_eqb x (path_join dirpath filename)) eqn:E; [|reflexivity].
    apply str_eqb_eq in E. subst x. congruence.
Qed.

Lemma scenario_A_offsets :
  map Re.start (Re.finditer use_re scenario_A) = [43]
  /\ Re.search abspath_re scenario_A = Some (Re.mkMatch 11 29).
Proof. split; vm_compute; reflexivity. Qed.

Lemma scenario_B_offsets :
  map Re.start (Re.finditer use_re scenario_B) = [6]
  /\ Re.search abspath_re scenario_B = Some (Re.mkMatch 24 42).
Proof. split; vm_compute; reflexivity. Qed.

(** C7.  A candidate file that holds the text of scenario A is flagged:
    [check_file] returns its path and the run prints it.  A file that holds
    the text of scenario B is not: [check_file] returns [None] and the run
    does not print its path. *)
Theorem scenarios_A_and_B w pa pb :
  In pa (candidates w) ->
  fs_read w pa = Some scenario_A ->
  fs_read w pb = Some scenario_B ->
  (fst (check_file pa w) = Some pa /\ In pa (printed w))
  /\ (fst (check_file pb w) = None /\ ~ In pb (printed w)).
Proof.
  intros Hc Ha Hb.
  destruct scenario_A_offsets as [UA GA].
  destruct scenario_B_offsets as [UB GB].
  assert (EA : fst (check_file pa w) = Some pa).
  { rewrite check_file_result. unfold outcome. rewrite Ha.
    rewrite (check_content_by_offsets pa _ _ _ _ UA GA). reflexivity. }
  assert (EB : fst (check_file pb w) = None).
  { rewrite check_file_result. unfold outcome. rewrite Hb.
    rewrite (check_content_by_offsets pb _ _ _ _ UB GB). reflexivity. }
  repeat split; auto.
  - apply in_printed. auto.
  - intro Hin. apply in_printed in Hin as [_ Hin]. congruence.
Qed.

Lemma check_content_None_any_path p p' content :
  check_content p content = None <-> check_content p' content = None.
Proof.
  unfold check_content.
  destruct (map Re.start (Re.finditer use_re content)); [tauto|].
  destruct (Re.search abspath_re content); [|tauto].
  destruct (_ <? _); split; intro; try discriminate; reflexivity.
Qed.

(** C8.  The result of [check_file] is a function of the text that was
    read: it is [check_content] of that text, the same in any two worlds
    that hold that text at the path, the same when evaluated again, and
    whether it is [None] does not depend on the path either.  Evaluating it
    leaves the files, the tree and the output as they were. *)
Theorem check_file_pure w1 w2 filepath content :
  fs_read w1 filepath = Some content ->
  fs_read w2 filepath = Some content ->
  fst (check_file filepath w1) = check_content filepath content
  /\ fst (check_file filepath w1) = fst (check_file filepath w2)
  /\ fst (check_file filepath (snd (check_file filepath w1)))
     = fst (check_file filepath w1)
  /\ (forall p',
        fs_read w2 p' = Some content ->
        (fst (check_file p' w2) = None
         <-> fst (check_file filepath w1) = None))
  /\ fs_read (snd (check_file filepath w1)) = fs_read w1
  /\ fs_walk (snd (check_file filepath w1)) = fs_walk w1
  /\ stdout (snd (check_file filepath w1)) = stdout w1.
Proof.
  intros H1 H2.
  assert (R1 : fst (check_file filepath w1) = check_content filepath content).
  { rewrite check_file_result. unfold outcome. rewrite H1. reflexivity. }
  assert (R2 : fst (check_file filepath w2) = check_content filepath content).
  { rewrite check_file_result. unfold outcome. rewrite H2. reflexivity. }
  split; [exact R1|]. split; [congruence|]. split.
  { rewrite !check_file_result. rewrite check_file_eq. reflexivity. }
  split.
  { intros p' Hp'. rewrite R1, check_file_result. unfold outcome.
    rewrite Hp'. apply check_content_None_any_path. }
  rewrite check_file_eq. simpl. repeat split. apply app_nil_r.
Qed.

(** C9.  A run changes neither the files nor the tree, so a second run
    prints the same lines as the first.  More generally two runs over the
    same files whose walks list the same candidates, in any order, print the
    same paths up to order. *)
Theorem walker_idempotent w w' :
  (forall p, fs_read w' p = fs_read w p) ->
  Permutation (candidates w') (candidates w) ->
  Permutation (printed w') (printed w)
  /\ (forall p, In p (printed w') <-> In p (printed w))
  /\ printed (snd (main w)) = printed w.
Proof.
  intros Hread Hperm.
  assert (P : Permutation (printed w') (printed w)).
  { rewrite !printed_eq.
    rewrite (filter_ext (flagged (fs_read w')) (flagged (fs_read w))).
    - apply filter_Permutation. assumption.
    - intro p. unfold flagged, outcome. rewrite Hread. reflexivity. }
  split; [assumption|split].
  - intro p. split; apply Permutation_in; [|symmetry]; assumption.
  - rewrite !printed_eq, main_eq. reflexivity.
Qed.

(** C10.  [check_file] returns [None] or the path it was given, and every
    line of the output is the path of a candidate that the run opened and
    for which [check_file] returned that very path. *)
Theorem check_file_returns_its_argument w filepath :
  (fst (check_file filepath w) = None
   \/ fst (check_file filepath w) = Some filepath)
  /\ forall line,
       In line (printed w) ->
       In line (examined w) /\ In line (candidates w)
       /\ fst (check_file line w) = Some line.
Proof.
  split.
  - rewrite check_file_result. apply outcome_cases.
  - intros line H. apply in_printed in H as [Hc Hr].
    rewrite examined_eq. auto.
Qed.

End Claims.

(** ** The scripts on concrete inputs *)

(** The harness of [debug_check.py] reports two use statements, the first
    match at the empty line before them, the guard before it, and the
    violation. *)
Lemma debug_check_output (ud : UnicodeData) :
  debug_check =
  [UseStatementsFound 2; FirstUseAt 256; CheckFoundAt 220;
   MatchText (lit "defined('ABSPATH')"); Detected].
Proof. vm_compute. reflexivity. Qed.

(** The run over the demonstration tree prints the one violating candidate
    and opens the four candidates. *)
Lemma demo_run :
  @printed ascii_only demo_world = [lit "src/a.php"]
  /\ @examined ascii_only demo_world =
     [lit "src/a.php"; lit "src/broken.php"; lit "src/b.php";
      lit "src/plain.php"].
Proof. split; vm_compute; reflexivity. Qed.

(** C4, the claim as stated fails: the guard pattern matches a guard whose
    quotes differ, at offset 0, although no offset of that text holds a
    guard with matching quotes. *)
Lemma mismatched_quotes_are_matched :
  Re.search abspath_re mismatched_guard = Some (Re.mkMatch 0 18)
  /\ forall g, ~ matching_guard_at mismatched_guard g.
Proof.
  split; [vm_compute; reflexivity|apply no_matching_guard_in_mismatched].
Qed.

Lemma check_file_strict_order_witness :
  fs_read demo_world (lit "src/a.php") = Some scenario_A
  /\ map Re.start (Re.finditer (@use_re ascii_only) scenario_A) = [43]
  /\ Re.search abspath_re scenario_A = Some (Re.mkMatch 11 29)
  /\ (fst (@check_file ascii_only (lit "src/a.php") demo_world)
      = Some (lit "src/a.php") <-> 11 < 43).
Proof.
  assert (H1 : fs_read demo_world (lit "src/a.php") = Some scenario_A)
    by (vm_compute; reflexivity).
  assert (H2 : map Re.start (Re.finditer (@use_re ascii_only) scenario_A)
               = [43]) by (vm_compute; reflexivity).
  assert (H3 : Re.search abspath_re scenario_A = Some (Re.mkMatch 11 29))
    by (vm_compute; reflexivity).
  split; [exact H1|split; [exact H2|split; [exact H3|]]].
  exact (proj1 (@check_file_strict_order ascii_only demo_world
                  (lit "src/a.php") scenario_A 43 [] (Re.mkMatch 11 29)
                  H1 H2 H3)).
Defined.

(** Text put after scenario A: a second use statement and a second guard. *)
Lemma later_occurrences_ignored_witness :
  map Re.start (Re.finditer (@use_re ascii_only) scenario_A) = [43]
  /\ Re.search abspath_re scenario_A = Some (Re.mkMatch 11 29)
  /\ @check_content ascii_only (lit "src/a.php")
       (scenario_A ++ lit "use Late;" ++ lit "defined('ABSPATH')")
     = @check_content ascii_only (lit "src/a.php")
         (scenario_A ++ lit "defined('ABSPATH')").
Proof.
  assert (H1 : map Re.start (Re.finditer (@use_re ascii_only) scenario_A)
               = [43]) by (vm_compute; reflexivity).
  assert (H2 : Re.search abspath_re scenario_A = Some (Re.mkMatch 11 29))
    by (vm_compute; reflexivity).
  split; [exact H1|split; [exact H2|]].
  exact (proj1 (@later_occurrences_ignored ascii_only (lit "src/a.php")
                  scenario_A (lit "use Late;") (lit "defined('ABSPATH')")
                  43 [] (Re.mkMatch 11 29) H1 H2)).
Defined.

Lemma inapplicable_gives_None_witness :
  fs_read demo_world (lit "src/plain.php") = Some plain_text
  /\ (Re.finditer (@use_re ascii_only) plain_text = []
      \/ Re.search abspath_re plain_text = None)
  /\ fst (@check_file ascii_only (lit "src/plain.php") demo_world) = None
  /\ ~ In (lit "src/plain.php") (@printed ascii_only demo_world).
Proof.
  assert (H1 : fs_read demo_world (lit "src/plain.php") = Some plain_text)
    by (vm_compute; reflexivity).
  assert (H2 : Re.finditer (@use_re ascii_only) plain_text = []
               \/ Re.search abspath_re plain_text = None)
    by (left; vm_compute; reflexivity).
  split; [exact H1|split; [exact H2|]].
  exact (@inapplicable_gives_None ascii_only demo_world
           (lit "src/plain.php") plain_text H1 H2).
Defined.

Lemma unreadable_file_skipped_witness :
  fs_read demo_world (path_join (lit "src") (lit "broken.php")) = None
  /\ fst (@check_file ascii_only (path_join (lit "src") (lit "broken.php"))
            demo_world) = None.
Proof.
  assert (H1 : fs_read demo_world (path_join (lit "src") (lit "broken.php"))
               = None) by (vm_compute; reflexivity).
  split; [exact H1|].
  exact (proj1 (@unreadable_file_skipped ascii_only demo_world (lit "src")
                  [lit "index.php"; lit "a.php"] (lit "broken.php")
                  [lit "b.php"; lit "plain.php"; lit "notes.txt"] H1)).
Defined.

Lemma scenarios_A_and_B_witness :
  In (lit "src/a.php") (candidates demo_world)
  /\ fs_read demo_world (lit "src/a.php") = Some scenario_A
  /\ fs_read demo_world (lit "src/b.php") = Some scenario_B
  /\ (fst (@check_file ascii_only (lit "src/a.php") demo_world)
      = Some (lit "src/a.php")
      /\ In (lit "src/a.php") (@printed ascii_only demo_world))
  /\ (fst (@check_file ascii_only (lit "src/b.php") demo_world) = None
      /\ ~ In (lit "src/b.php") (@printed ascii_only demo_world)).
Proof.
  assert (H1 : In (lit "src/a.php") (candidates demo_world))
    by (vm_compute; left; reflexivity).
  assert (H2 : fs_read demo_world (lit "src/a.php") = Some scenario_A)
    by (vm_compute; reflexivity).
  assert (H3 : fs_read demo_world (lit "src/b.php") = Some scenario_B)
    by (vm_compute; reflexivity).
  split; [exact H1|split; [exact H2|split; [exact H3|]]].
  exact (@scenarios_A_and_B ascii_only demo_world (lit "src/a.php")
           (lit "src/b.php") H1 H2 H3).
Defined.

Lemma check_file_pure_witness :
  fs_read demo_world (lit "src/a.php") = Some scenario_A
  /\ fs_read demo_world_reordered (lit "src/a.php") = Some scenario_A
  /\ fst (@check_file ascii_only (lit "src/a.php") demo_world)
     = fst (@check_file ascii_only (lit "src/a.php") demo_world_reordered).
Proof.
  assert (H1 : fs_read demo_world (lit "src/a.php") = Some scenario_A)
    by (vm_compute; reflexivity).
  assert (H2 : fs_read demo_world_reordered (lit "src/a.php")
               = Some scenario_A) by (vm_compute; reflexivity).
  split; [exact H1|split; [exact H2|]].
  exact (proj1 (proj2 (@check_file_pure ascii_only demo_world
                         demo_world_reordered (lit "src/a.php") scenario_A
                         H1 H2))).
Defined.

Lemma walker_idempotent_witness :
  (forall p, fs_read demo_world_reordered p = fs_read demo_world p)
  /\ Permutation (candidates demo_world_reordered) (candidates demo_world)
  /\ Permutation (@printed ascii_only demo_world_reordered)
       (@printed ascii_only demo_world)
  /\ @printed ascii_only (snd (@main ascii_only demo_world))
     = @printed ascii_only demo_world.
Proof.
  assert (H1 : forall p, fs_read demo_world_reordered p = fs_read demo_world p)
    by (intro p; reflexivity).
  assert (H2 : Permutation (candidates demo_world_reordered)
                 (candidates demo_world))
    by (vm_compute; apply perm_swap).
  split; [exact H1|split; [exact H2|]].
  pose proof (@walker_idempotent ascii_only demo_world demo_world_reordered
                H1 H2) as (P & _ & E).
  split; [exact P|exact E].
Defined.

(** ** All the matches of [re.finditer] *)

Lemma finditer_at_spec r s :
  forall bol pos skip m,
    In m (Re.finditer_at r bol s pos skip) ->
    exists pre suf n,
      s = pre ++ suf
      /\ Re.start m = pos + List.length pre
      /\ Re.stop m = Re.start m + n
      /\ Re.match_here r (eol bol pre) suf = Some n.
Proof.
  induction s as [|x s IH]; intros bol pos skip m Hin.
  - destruct skip as [|k]; simpl in Hin; [|contradiction].
    destruct (Re.match_here r bol []) as [n|] eqn:Hm; [|contradiction].
    destruct Hin as [<-|[]]. exists [], [], n. simpl.
    repeat split; auto.
  - assert (Step : forall k,
               In m (Re.finditer_at r (is_nl x) s (S pos) k) ->
               exists pre suf n,
                 x :: s = pre ++ suf
                 /\ Re.start m = pos + List.length pre
                 /\ Re.stop m = Re.start m + n
                 /\ Re.match_here r (eol bol pre) suf = Some n).
    { intros k Hk.
      destruct (IH _ _ _ _ Hk) as (pre & suf & n & -> & Hs & He & Hn).
      exists (x :: pre), suf, n. simpl. repeat split; auto. lia. }
    destruct skip as [|k]; simpl in Hin; [|eauto].
    destruct (Re.match_here r bol (x :: s)) as [n|] eqn:Hm; [|eauto].
    destruct Hin as [<-|Hin]; [|eauto].
    exists [], (x :: s), n. simpl. repeat split; auto.
Qed.

Lemma separated_le lo lo' l : lo' <= lo -> separated lo l -> separated lo' l.
Proof.
  destruct l as [|m l]; simpl; [auto|].
  intros Hle (H1 & H2 & H3). repeat split; auto. lia.
Qed.

Lemma finditer_at_separated r
      (Hpos : forall bol s n, Re.match_here r bol s = Some n -> 0 < n) s :
  forall bol pos skip,
    separated (pos + skip) (Re.finditer_at r bol s pos skip).
Proof.
  induction s as [|x s IH]; intros bol pos skip.
  - destruct skip as [|k]; simpl; [|exact I].
    destruct (Re.match_here r bol []) as [n|] eqn:Hm; simpl; [|exact I].
    apply Hpos in Hm. repeat split; lia.
  - destruct skip as [|k]; simpl.
    + destruct (Re.match_here r bol (x :: s)) as [n|] eqn:Hm; simpl.
      * apply Hpos in Hm. repeat split; try lia.
        eapply separated_le; [|apply IH]. lia.
      * eapply separated_le; [|apply IH]. lia.
    + eapply separated_le; [|apply IH]. lia.
Qed.

Lemma hd_error_map {A B : Type} (f : A -> B) (l : list A) :
  hd_error (map f l) = option_map f (hd_error l).
Proof. destruct l; reflexivity. Qed.

Lemma app_inv_length {A : Type} (a : list A) :
  forall b x y,
    List.length a = List.length b -> a ++ x = b ++ y -> a = b /\ x = y.
Proof.
  induction a as [|c a IH]; intros [|d b] x y Hl H; simpl in *;
    try discriminate; auto.
  injection H as -> H. injection Hl as Hl.
  destruct (IH _ _ _ Hl H) as [-> ->]. auto.
Qed.

Lemma firstn_length_app {A : Type} (a b : list A) :
  firstn (List.length a) (a ++ b) = a.
Proof. induction a; simpl; congruence. Qed.

Lemma is_line_start_eol pre : eol true pre = true <-> is_line_start pre.
Proof.
  split.
  - intro H. destruct pre as [|c pre]; [left; reflexivity|right].
    apply (eol_true_last true); [discriminate|assumption].
  - intros [->|[B ->]]; [reflexivity|].
    rewrite eol_app. reflexivity.
Qed.

Lemma guard_text_length ws1 q1 q2 ws2 :
  List.length (guard_text ws1 q1 q2 ws2)
  = 18 + List.length ws1 + List.length ws2.
Proof.
  unfold guard_text. repeat (rewrite length_app || simpl). lia.
Qed.

Section MoreFacts.

Context {ud : UnicodeData}.

Lemma use_at_occurs text g : use_at text g <-> occurs_at use_re text g.
Proof.
  split.
  - intros (pre & ws1 & x & ws2 & y & w & rest & -> & Hl & Hs & P).
    exists pre, (use_text ws1 x ws2 y w), rest.
    split; [reflexivity|split; [assumption|]].
    apply den_use. split; [apply is_line_start_eol; assumption|].
    exists ws1, x, ws2, y, w. auto.
  - intros (pre & m & rest & -> & Hl & D).
    apply den_use in D as (Hb & ws1 & x & ws2 & y & w & -> & P).
    exists pre, ws1, x, ws2, y, w, rest.
    split; [reflexivity|split; [assumption|split; [|assumption]]].
    apply is_line_start_eol. assumption.
Qed.

Lemma use_text_length ws1 x ws2 y w :
  List.length (use_text ws1 x ws2 y w)
  = 5 + List.length ws1 + List.length ws2 + List.length w.
Proof.
  unfold use_text. repeat (rewrite length_app || simpl). lia.
Qed.

Lemma use_match_length bol s n :
  Re.match_here use_re bol s = Some n -> 5 <= n /\ n <= List.length s.
Proof.
  intro H. destruct (match_sound _ _ _ _ H) as (m & rest & -> & <- & D).
  apply den_use in D as (_ & ws1 & x & ws2 & y & w & -> & _).
  rewrite length_app, use_text_length. lia.
Qed.

Lemma in_finditer_occurs r text m :
  In m (Re.finditer r text) ->
  occurs_at r text (Re.start m) /\ Re.stop m <= List.length text.
Proof.
  intro Hin. apply finditer_at_spec in Hin.
  destruct Hin as (pre & suf & n & -> & Hs & He & Hn). simpl in Hs.
  destruct (match_sound _ _ _ _ Hn) as (mm & rest & -> & <- & D). split.
  - exists pre, mm, rest. auto.
  - rewrite He, Hs, !length_app. lia.
Qed.

(** X1.  The first offset of the use statements is the least offset at
    which a line starts that reads: optional white space, [use], white
    space, at least one character of a name; the list is empty exactly when
    the text has no such line.  The white space may hold line breaks, so the
    offset can be that of an empty line in front of the statement. *)
Theorem first_use_offset_is_first_use_line text :
  match hd_error (map Re.start (Re.finditer use_re text)) with
  | Some u => use_at text u /\ forall g, g < u -> ~ use_at text g
  | None => forall g, ~ use_at text g
  end.
Proof.
  rewrite hd_error_map, finditer_head.
  destruct (Re.search use_re text) as [m|] eqn:Hs; simpl.
  - apply search_start_occurs in Hs as [Ho Hmin]. split.
    + apply use_at_occurs. assumption.
    + intros g Hg Hat. apply use_at_occurs in Hat. eapply Hmin; eauto.
  - intros g Hat. apply use_at_occurs in Hat.
    eapply search_None_iff in Hs. eauto.
Qed.

(** X2.  Every offset in the list of use statements, not only the first,
    is the start of a line on which a use statement begins. *)
Theorem every_use_offset_is_a_use_line text u :
  In u (map Re.start (Re.finditer use_re text)) -> use_at text u.
Proof.
  intro Hin. apply in_map_iff in Hin as (m & <- & Hin).
  apply use_at_occurs. apply in_finditer_occurs. assumption.
Qed.

(** X3.  The matches of the use pattern come in increasing order without
    overlap: each has at least five characters, starts at or after the end
    of the one before, and ends within the text. *)
Theorem use_matches_separated text :
  separated 0 (Re.finditer use_re text)
  /\ forall m,
       In m (Re.finditer use_re text) ->
       Re.start m + 5 <= Re.stop m /\ Re.stop m <= List.length text.
Proof.
  split.
  - apply (finditer_at_separated use_re) with (pos := 0) (skip := 0).
    intros bol s n H. apply use_match_length in H. lia.
  - intros m Hin. split; [|apply (in_finditer_occurs _ _ _ Hin)].
    apply finditer_at_spec in Hin.
    destruct Hin as (pre & suf & n & _ & _ & He & Hn).
    apply use_match_length in Hn. lia.
Qed.

End MoreFacts.

(** ** The guard match and the two offsets *)

Lemma abspath_search_parts content m :
  Re.search abspath_re content = Some m ->
  exists pre ws1 q1 q2 ws2 rest,
    content = pre ++ guard_text ws1 q1 q2 ws2 ++ rest
    /\ Re.start m = List.length pre
    /\ Re.stop m = Re.start m + List.length (guard_text ws1 q1 q2 ws2)
    /\ forallb is_space ws1 = true /\ forallb is_space ws2 = true
    /\ is_quote q1 = true /\ is_quote q2 = true.
Proof.
  intro H. apply search_at_Some in H.
  destruct H as (pre & suf & n & -> & Hs & He & Hn & _). simpl in Hs.
  destruct (match_sound _ _ _ _ Hn) as (mm & rest & -> & <- & D).
  apply den_abspath in D as (ws1 & q1 & q2 & ws2 & -> & H).
  exists pre, ws1, q1, q2, ws2, rest. auto.
Qed.

Lemma abspath_search_extent content m :
  Re.search abspath_re content = Some m ->
  Re.start m + 18 <= Re.stop m /\ Re.stop m <= List.length content.
Proof.
  intro H. apply abspath_search_parts in H.
  destruct H as (pre & ws1 & q1 & q2 & ws2 & rest & -> & Hs & He & _).
  rewrite He, Hs, !length_app, guard_text_length. lia.
Qed.

Section OffsetFacts.

Context {ud : UnicodeData}.

Lemma use_guard_heads_differ ws1 x ws2 y w r1 a q q' b r2 :
  use_parts ws1 x ws2 y w ->
  use_text ws1 x ws2 y w ++ r1 = guard_text a q q' b ++ r2 -> False.
Proof.
  intros (H1 & _) H. unfold use_text, guard_text in H.
  destruct ws1 as [|c ws1]; cbn in H.
  - discriminate.
  - injection H as -> _. cbn in H1. discriminate.
Qed.

Lemma use_offset_not_guard_offset content u m :
  In u (map Re.start (Re.finditer use_re content)) ->
  Re.search abspath_re content = Some m ->
  Re.start m <> u.
Proof.
  intros Hin Hm E.
  apply in_map_iff in Hin as (mu & Hu & Hin).
  apply in_finditer_occurs in Hin as [Ho _].
  apply use_at_occurs in Ho.
  destruct Ho as (pre & ws1 & x & ws2 & y & w & rest & Hc & Hl & _ & P).
  apply abspath_search_parts in Hm.
  destruct Hm as (pre' & a & q & q' & b & rest' & Hc' & Hs & _).
  rewrite Hc in Hc'.
  apply app_inv_length in Hc' as [_ Hc']; [|congruence].
  eapply use_guard_heads_differ; eauto.
Qed.

(** X4.  The guard never starts at the offset of a use statement, so the
    comparison of [check_file] never meets equal offsets: with both matches
    present the result is [None] exactly when the first use statement
    starts strictly before the guard. *)
Theorem offsets_never_equal filepath content u us m :
  map Re.start (Re.finditer use_re content) = u :: us ->
  Re.search abspath_re content = Some m ->
  Re.start m <> u
  /\ (forall u', In u' us -> Re.start m <> u')
  /\ (check_content filepath content = None <-> u < Re.start m).
Proof.
  intros Hu Hm.
  assert (Hne : forall u', In u' (u :: us) -> Re.start m <> u').
  { intros u' Hin. rewrite <- Hu in Hin.
    eapply use_offset_not_guard_offset; eauto. }
  split; [apply Hne; left; reflexivity|].
  split; [intros u' Hin; apply Hne; right; assumption|].
  rewrite (check_content_by_offsets filepath _ _ _ _ Hu Hm).
  specialize (Hne u (or_introl eq_refl)).
  destruct (Nat.ltb_spec (Re.start m) u); split; intro;
    try discriminate; try reflexivity; lia.
Qed.

(** X5.  The guard match that [re.search] returns lies within the text and
    has at least eighteen characters, and its text, which the harness
    prints as [group(0)], reads [defined(], white space, a quote,
    [ABSPATH], a quote, white space, [)]. *)
Theorem guard_match_extent content m :
  Re.search abspath_re content = Some m ->
  Re.start m + 18 <= Re.stop m
  /\ Re.stop m <= List.length content
  /\ exists ws1 q1 q2 ws2,
       group0 content m = guard_text ws1 q1 q2 ws2
       /\ forallb is_space ws1 = true /\ forallb is_space ws2 = true
       /\ is_quote q1 = true /\ is_quote q2 = true.
Proof.
  intro H. pose proof (abspath_search_extent _ _ H) as [E1 E2].
  split; [assumption|split; [assumption|]].
  apply abspath_search_parts in H.
  destruct H as (pre & ws1 & q1 & q2 & ws2 & rest & -> & Hs & He & P).
  exists ws1, q1, q2, ws2. split; [|assumption].
  unfold group0. rewrite He, Hs.
  replace (List.length pre + List.length (guard_text ws1 q1 q2 ws2)
           - List.length pre)
    with (List.length (guard_text ws1 q1 q2 ws2)) by lia.
  rewrite skipn_length_app. apply firstn_length_app.
Qed.

(** X6.  A text of fewer than eighteen characters, the empty text among
    them, is never flagged, in any world that holds it. *)
Theorem short_text_never_flagged w filepath content :
  List.length content < 18 ->
  check_content filepath content = None
  /\ (fs_read w filepath = Some content ->
      fst (check_file filepath w) = None
      /\ ~ In filepath (printed w)).
Proof.
  intro Hlen.
  assert (E : check_content filepath content = None).
  { apply check_content_inapplicable. right.
    destruct (Re.search abspath_re content) as [m|] eqn:Hs; [|reflexivity].
    apply abspath_search_extent in Hs. lia. }
  split; [assumption|]. intro Hread.
  assert (R : fst (check_file filepath w) = None).
  { rewrite check_file_result. unfold outcome. rewrite Hread. assumption. }
  split; [assumption|].
  intro Hin. apply in_printed in Hin as [_ Hin]. congruence.
Qed.

(** X7.  The harness and [check_file] agree on every text: the harness
    ends with the line of the violation exactly when [check_file] returns
    the path, with the line of the missing patterns exactly when a pattern
    has no match, and with the remaining line otherwise; it prints the
    offset and the text of the guard when the guard is found and no such
    line when it is not.  The script runs these lines on its literal. *)
Theorem harness_agrees_with_check_file filepath content :
  (In Detected (debug_lines content)
   <-> check_content filepath content = Some filepath)
  /\ (In NotDetectedBoth (debug_lines content)
      <-> Re.finditer use_re content = []
          \/ Re.search abspath_re content = None)
  /\ (In OkAfterOrEqual (debug_lines content)
      <-> check_content filepath content = None
          /\ Re.finditer use_re content <> []
          /\ Re.search abspath_re content <> None)
  /\ match Re.search abspath_re content with
     | Some m =>
         In (CheckFoundAt (Re.start m)) (debug_lines content)
         /\ In (MatchText (group0 content m)) (debug_lines content)
     | None =>
         forall pos text,
           ~ In (CheckFoundAt pos) (debug_lines content)
           /\ ~ In (MatchText text) (debug_lines content)
     end
  /\ debug_check = debug_lines debug_content.
Proof.
  unfold debug_lines, check_content.
  destruct (Re.finditer use_re content) as [|mu l] eqn:Hu;
    destruct (Re.search abspath_re content) as [mg|] eqn:Hg; simpl;
    try destruct (Re.start mg <? Re.start mu) eqn:Hlt; simpl.
  all: split; [|split; [|split; [|split; [|reflexivity]]]].
  all: try (split; intros H;
            repeat match goal with
                   | H : _ \/ _ |- _ => destruct H
                   | H : _ /\ _ |- _ => destruct H
                   | H : False |- _ => destruct H
                   end;
            try discriminate; try congruence; auto 8; fail).
  all: try (intros pos text; split; intros H;
            repeat match goal with
                   | H : _ \/ _ |- _ => destruct H
                   | H : False |- _ => destruct H
                   end;
            discriminate).
  all: try (repeat split; auto 8; discriminate).
Qed.

End OffsetFacts.

(** ** File names, paths and the whole run *)

Lemma startswith_spec p :
  forall s, startswith s p = true <-> exists t, s = p ++ t.
Proof.
  induction p as [|y p IH]; intros s.
  - destruct s; simpl; split; eauto.
  - destruct s as [|x s]; simpl.
    + split; [discriminate|]. intros [t H]. discriminate.
    + rewrite andb_true_iff, N.eqb_eq, IH. split.
      * intros [-> [t ->]]. eauto.
      * intros [t H]. injection H as -> ->. eauto.
Qed.

Lemma endswith_spec s p : endswith s p = true <-> exists t, s = t ++ p.
Proof.
  unfold endswith. rewrite startswith_spec. split.
  - intros [t H]. exists (rev t).
    rewrite <- (rev_involutive s), H, rev_app_distr, rev_involutive.
    reflexivity.
  - intros [t ->]. exists (rev t). apply rev_app_distr.
Qed.

Lemma path_join_suffix a b : exists pre, path_join a b = pre ++ b.
Proof.
  unfold path_join.
  destruct (startswith b (lit "/")); [exists []; reflexivity|].
  destruct a as [|x a]; [exists []; reflexivity|].
  destruct (endswith (x :: a) (lit "/")).
  - exists (x :: a). reflexivity.
  - exists ((x :: a) ++ lit "/"). rewrite <- app_assoc. reflexivity.
Qed.

Lemma is_candidate_stem filename :
  is_candidate filename = true <->
  exists stem, filename = stem ++ lit ".php" /\ stem <> lit "index".
Proof.
  rewrite is_candidate_spec, endswith_spec. split.
  - intros [[stem ->] Hne]. exists stem. split; [reflexivity|].
    intros ->. apply Hne. reflexivity.
  - intros (stem & -> & Hne). split; [eauto|].
    change (lit "index.php") with (lit "index" ++ lit ".php").
    intro E. apply app_inv_tail in E. contradiction.
Qed.

Lemma candidate_ends_with_php w p :
  In p (candidates w) -> exists t, p = t ++ lit ".php".
Proof.
  intro H. apply in_candidates in H as (d & ds & fs & f & _ & _ & Hc & ->).
  apply is_candidate_stem in Hc as (stem & -> & _).
  destruct (path_join_suffix d (stem ++ lit ".php")) as [pre ->].
  exists (pre ++ stem). rewrite app_assoc. reflexivity.
Qed.


(** X8.  The walker keeps exactly the file names made of a stem other than
    [index] followed by [.php]; the stem may be empty, so a file named
    [.php] is kept, and the empty name is not. *)
Theorem candidate_names filename :
  (is_candidate filename = true <->
   exists stem, filename = stem ++ lit ".php" /\ stem <> lit "index")
  /\ is_candidate (lit ".php") = true
  /\ is_candidate [] = false.
Proof.
  split; [apply is_candidate_stem|split; reflexivity].
Qed.

Section WholeRun.

Context {ud : UnicodeData}.

(** X9.  Every path the run opens or prints ends with [.php] and has at
    least four characters. *)
Theorem run_paths_end_with_php w line :
  In line (examined w) \/ In line (printed w) ->
  endswith line (lit ".php") = true /\ 4 <= List.length line.
Proof.
  intro H.
  assert (Hc : In line (candidates w)).
  { destruct H as [H|H].
    - rewrite examined_eq in H. assumption.
    - apply in_printed in H as [H _]. assumption. }
  apply candidate_ends_with_php in Hc as [t ->]. split.
  - apply endswith_spec. eauto.
  - rewrite length_app. simpl. lia.
Qed.



End WholeRun.

(** ** The detection rule in terms of the text *)

Section RuleFacts.

Context {ud : UnicodeData}.

Lemma first_use_cases text :
  (Re.finditer use_re text = [] /\ forall g, ~ use_at text g)
  \/ exists u us,
       map Re.start (Re.finditer use_re text) = u :: us
       /\ use_at text u /\ forall g, use_at text g -> u <= g.
Proof.
  pose proof (finditer_first use_re text) as HF.
  destruct (Re.search use_re text) as [m|] eqn:Hs.
  - right. destruct HF as [rest HF].
    exists (Re.start m), (map Re.start rest). rewrite HF.
    apply search_start_occurs in Hs as [Ho Hmin].
    split; [reflexivity|split].
    + apply use_at_occurs. assumption.
    + intros g Hg. apply use_at_occurs in Hg.
      destruct (Nat.le_gt_cases (Re.start m) g) as [|Hlt]; [assumption|].
      elim (Hmin g Hlt Hg).
  - left. split; [assumption|].
    intros g Hg. apply use_at_occurs in Hg.
    eapply search_None_iff in Hs. eauto.
Qed.

Lemma guard_cases text :
  (Re.search abspath_re text = None /\ forall g, ~ guard_at text g)
  \/ exists m,
       Re.search abspath_re text = Some m
       /\ guard_at text (Re.start m)
       /\ forall g, guard_at text g -> Re.start m <= g.
Proof.
  destruct (Re.search abspath_re text) as [m|] eqn:Hs.
  - right. exists m. apply search_start_occurs in Hs as [Ho Hmin].
    split; [reflexivity|split].
    + apply guard_at_occurs. assumption.
    + intros g Hg. apply guard_at_occurs in Hg.
      destruct (Nat.le_gt_cases (Re.start m) g) as [|Hlt]; [assumption|].
      elim (Hmin g Hlt Hg).
  - left. split; [reflexivity|].
    intros g Hg. apply guard_at_occurs in Hg.
    eapply search_None_iff in Hs. eauto.
Qed.

(** X12.  The detection rule read on the text: [check_file]'s rule returns
    the path exactly when the text has a line that starts a use statement
    and a guard that begins before every such line. *)
Theorem flagged_iff_guard_before_every_use filepath content :
  check_content filepath content = Some filepath
  <-> (exists u, use_at content u)
      /\ exists g, guard_at content g
                   /\ forall u, use_at content u -> g < u.
Proof.
  destruct (first_use_cases content) as [[HU NU]|(u & us & HU & AU & MU)].
  - split.
    + intro H. rewrite check_content_inapplicable in H by auto.
      discriminate.
    + intros [[u Hu] _]. elim (NU u Hu).
  - destruct (guard_cases content) as [[HG NG]|(m & HG & AG & MG)].
    + split.
      * intro H. rewrite check_content_inapplicable in H by auto.
        discriminate.
      * intros [_ (g & Hg & _)]. elim (NG g Hg).
    + rewrite (check_content_by_offsets filepath _ _ _ _ HU HG).
      destruct (Nat.ltb_spec (Re.start m) u) as [Hlt|Hge]; split.
      * intros _. split; [eauto|]. exists (Re.start m).
        split; [assumption|]. intros u' Hu'. apply MU in Hu'. lia.
      * reflexivity.
      * discriminate.
      * intros [_ (g & Hg & Hall)]. apply MG in Hg. apply Hall in AU. lia.
Qed.

End RuleFacts.

(** ** The further properties on concrete inputs *)

Lemma every_use_offset_is_a_use_line_witness :
  In 43 (map Re.start (Re.finditer (@use_re ascii_only) scenario_A))
  /\ @use_at ascii_only scenario_A 43.
Proof.
  assert (H1 : In 43 (map Re.start
                        (Re.finditer (@use_re ascii_only) scenario_A)))
    by (vm_compute; left; reflexivity).
  split; [exact H1|].
  exact (@every_use_offset_is_a_use_line ascii_only scenario_A 43 H1).
Defined.

Lemma offsets_never_equal_witness :
  map Re.start (Re.finditer (@use_re ascii_only) scenario_B) = [6]
  /\ Re.search abspath_re scenario_B = Some (Re.mkMatch 24 42)
  /\ (@check_content ascii_only (lit "src/b.php") scenario_B = None
      <-> 6 < 24).
Proof.
  assert (H1 : map Re.start (Re.finditer (@use_re ascii_only) scenario_B)
               = [6]) by (vm_compute; reflexivity).
  assert (H2 : Re.search abspath_re scenario_B = Some (Re.mkMatch 24 42))
    by (vm_compute; reflexivity).
  split; [exact H1|split; [exact H2|]].
  exact (proj2 (proj2 (@offsets_never_equal ascii_only (lit "src/b.php")
                         scenario_B 6 [] (Re.mkMatch 24 42) H1 H2))).
Defined.

Lemma guard_match_extent_witness :
  Re.search abspath_re scenario_A = Some (Re.mkMatch 11 29)
  /\ 11 + 18 <= 29.
Proof.
  assert (H1 : Re.search abspath_re scenario_A = Some (Re.mkMatch 11 29))
    by (vm_compute; reflexivity).
  split; [exact H1|].
  exact (proj1 (guard_match_extent scenario_A (Re.mkMatch 11 29) H1)).
Defined.

Lemma short_text_never_flagged_witness :
  List.length plain_text < 18
  /\ @check_content ascii_only (lit "src/plain.php") plain_text = None.
Proof.
  assert (H1 : List.length plain_text < 18) by (vm_compute; lia).
  split; [exact H1|].
  exact (proj1 (@short_text_never_flagged ascii_only demo_world
                  (lit "src/plain.php") plain_text H1)).
Defined.

Lemma run_paths_end_with_php_witness :
  (In (lit "src/a.php") (@examined ascii_only demo_world)
   \/ In (lit "src/a.php") (@printed ascii_only demo_world))
  /\ endswith (lit "src/a.php") (lit ".php") = true.
Proof.
  assert (H1 : In (lit "src/a.php") (@examined ascii_only demo_world)
               \/ In (lit "src/a.php") (@printed ascii_only demo_world))
    by (right; vm_compute; left; reflexivity).
  split; [exact H1|].
  exact (proj1 (@run_paths_end_with_php ascii_only demo_world
                  (lit "src/a.php") H1)).
Defined.
